(** * Sales Analysis: the cleaning pipeline of [Sales Analysis.py]

    A shallow embedding of sections 4 to 4.7 of the script (column
    normalisation, required-field drop, median and mode imputation, date
    coercion, priority mapping, de-duplication, IQR outlier filter) and of
    the prints around them, followed by the properties of the pipeline.

    Modelling choices.
    - A [DataFrame] is an ordered list of labelled columns, as in pandas; a
      column ([Series]) carries its dtype: [Numeric] (int64/float64, NaN as
      [None]), [Object] (str, NaN as [None]) or [Datetime] (datetime64[ns]
      as an integer timestamp, NaT as [None]).  [df[label]] is the first
      column of that label: the labels are meant pairwise distinct once
      normalised and renamed, as they are when [read_csv] delivers distinct
      headers that stay distinct.  What pandas does on a repeated label
      ([df[label]] is then a frame, and lines 78 and 88 raise) is outside the
      model; the statements on when the script raises or gets through
      assume distinct labels.
    - The entries of a numeric column are rationals ([Q]): every finite
      int64 or float64 value is one.  What numpy and pandas compute from
      them in section 4.7 and in the aggregations (quartiles, the two
      bounds, the comparisons with the bounds, group sums and means) is
      float64 arithmetic with rounding, or int64 arithmetic with
      wrap-around; none of it is code of the script.  These operations are
      an interface, [Arith], and the pipeline is proved for every
      implementation of it; [exact] is the implementation without rounding
      or overflow, on which the examples run.  The median of section 4.2 is
      the middle value, or the midpoint of the two middle values.
    - A Python [str] is a [string] whose characters are the code points
      U+0000..U+00FF; both characters removed from the labels (U+00A3 and
      U+00E2) live there, and [lower], [strip] and [capitalize] follow
      Python on that range (but for three letters, see [PyStr.islower]).
      Strings with code points above U+00FF are outside the model.
    - A raised Python exception ends the script: [result] is the error
      monad, [Raise e] an uncaught exception of class [exc_name e].
    - [pd.to_datetime] is a library routine: its parser is a parameter of
      the development. *)

From Stdlib Require Import List String Ascii Bool Arith ZArith QArith Lia.
From Stdlib Require Import Permutation.
Import ListNotations.

Local Open Scope string_scope.
Local Open Scope list_scope.

Set Implicit Arguments.

(* ===================================================================== *)
(** ** Python exceptions and the error monad *)

Inductive pykey : Type :=
| Label (s : string)            (* df['date'] on a frame without it *)
| Labels (ls : list string)     (* dropna(subset=...) with absent labels *)
| Pos (n : nat).                (* s[0] on an empty Series *)

Inductive exn : Type :=
| KeyError (k : pykey)
| AttributeError                (* .str on a non-string Series *)
| TypeError.                    (* quantile of an object Series *)

Definition exc_name (e : exn) : string :=
  match e with
  | KeyError _ => "KeyError"
  | AttributeError => "AttributeError"
  | TypeError => "TypeError"
  end.

Inductive result (A : Type) : Type :=
| Ok (a : A)
| Raise (e : exn).

Arguments Ok {A} a.
Arguments Raise {A} e.

Definition bind {A B} (r : result A) (k : A -> result B) : result B :=
  match r with
  | Ok a => k a
  | Raise e => Raise e
  end.

Notation "x <- r ;; k" := (bind r (fun x => k))
  (at level 61, r at next level, right associativity).

(* ===================================================================== *)
(** ** Strings: [str.strip], [str.lower], [str.capitalize], [str.replace] *)

Module PyStr.

Local Open Scope nat_scope.

Definition code (c : ascii) : nat := nat_of_ascii c.

(** [str.isspace] on U+0000..U+00FF. *)
Definition isspace (c : ascii) : bool :=
  let n := code c in
  ((9 <=? n) && (n <=? 13)) || ((28 <=? n) && (n <=? 32))
  || (n =? 133) || (n =? 160).

(** Upper-case letters of U+0000..U+00FF: A-Z, and U+00C0..U+00DE but the
    multiplication sign U+00D7. *)
Definition isupper (c : ascii) : bool :=
  let n := code c in
  ((65 <=? n) && (n <=? 90))
  || ((192 <=? n) && (n <=? 222) && negb (n =? 215)).

(** Lower-case letters whose upper-case form is again below U+0100: a-z,
    and U+00E0..U+00FE but the division sign U+00F7.  (U+00B5, U+00DF and
    U+00FF upper-case outside the alphabet of the model and are left as
    they are; no priority label starts with one of them either way.) *)
Definition islower (c : ascii) : bool :=
  let n := code c in
  ((97 <=? n) && (n <=? 122))
  || ((224 <=? n) && (n <=? 254) && negb (n =? 247)).

Definition lower_char (c : ascii) : ascii :=
  if isupper c then ascii_of_nat (code c + 32) else c.

Definition upper_char (c : ascii) : ascii :=
  if islower c then ascii_of_nat (code c - 32) else c.

Fixpoint lower (s : string) : string :=
  match s with
  | EmptyString => EmptyString
  | String c s' => String (lower_char c) (lower s')
  end.

(** [str.capitalize]: first character upper-cased, the rest lower-cased. *)
Definition capitalize (s : string) : string :=
  match s with
  | EmptyString => EmptyString
  | String c s' => String (upper_char c) (lower s')
  end.

Fixpoint lstrip (s : string) : string :=
  match s with
  | EmptyString => EmptyString
  | String c s' => if isspace c then lstrip s' else s
  end.

(** [rstrip s] drops the trailing white space: a character is kept when
    it is not white space or something is kept after it. *)
Fixpoint rstrip (s : string) : string :=
  match s with
  | EmptyString => EmptyString
  | String c s' =>
      match rstrip s' with
      | EmptyString => if isspace c then EmptyString else String c EmptyString
      | r => String c r
      end
  end.

Definition strip (s : string) : string := rstrip (lstrip s).

(** [s.replace(c, '')] for a one-character pattern. *)
Fixpoint remove_char (c : ascii) (s : string) : string :=
  match s with
  | EmptyString => EmptyString
  | String d s' =>
      if Ascii.eqb c d then remove_char c s' else String d (remove_char c s')
  end.

(** [s.replace(c, d)] for one-character pattern and replacement. *)
Fixpoint replace_char (c d : ascii) (s : string) : string :=
  match s with
  | EmptyString => EmptyString
  | String e s' =>
      String (if Ascii.eqb c e then d else e) (replace_char c d s')
  end.

(** The pound sign U+00A3 and a-circumflex U+00E2. *)
Definition pound : ascii := ascii_of_nat 163.
Definition a_circumflex : ascii := ascii_of_nat 226.

End PyStr.

(* ===================================================================== *)
(** ** Numbers: sorting, median, quantile *)

Module Stats.

Local Open Scope Q_scope.

Fixpoint insert (x : Q) (l : list Q) : list Q :=
  match l with
  | [] => [x]
  | y :: l' => if Qle_bool x y then x :: l else y :: insert x l'
  end.

Fixpoint sort (l : list Q) : list Q :=
  match l with
  | [] => []
  | x :: l' => insert x (sort l')
  end.

(** The values that are present ([skipna]). *)
Fixpoint dropna {A} (l : list (option A)) : list A :=
  match l with
  | [] => []
  | Some x :: l' => x :: dropna l'
  | None :: l' => dropna l'
  end.

(** [Series.median()]: NaN skipped; NaN ([None]) when nothing is left. *)
Definition median (xs : list (option Q)) : option Q :=
  let s := sort (dropna xs) in
  let n := List.length s in
  match n with
  | O => None
  | _ =>
      if Nat.even n
      then Some ((nth (n / 2 - 1) s 0 + nth (n / 2) s 0) / 2)
      else Some (nth (n / 2) s 0)
  end.

(** [Series.quantile(k/4)], linear interpolation: the position is
    [(n-1)*k/4]; the value lies between the two neighbours of the
    position, at its fractional part. *)
Definition quantile4 (k : nat) (xs : list (option Q)) : option Q :=
  let s := sort (dropna xs) in
  let n := List.length s in
  match n with
  | O => None
  | _ =>
      let p := ((n - 1) * k)%nat in
      let lo := (p / 4)%nat in
      let fr := (Z.of_nat (p mod 4) # 4) in
      let a := nth lo s 0 in
      let b := nth (lo + 1) s a in
      Some (a + (b - a) * fr)
  end.

End Stats.

(* ===================================================================== *)
(** ** Series and DataFrame *)

Inductive Series : Type :=
| Numeric (xs : list (option Q))        (* int64 / float64, None = NaN *)
| Object (xs : list (option string))    (* str, None = NaN *)
| Datetime (xs : list (option Z)).      (* datetime64[ns], None = NaT *)

Definition DataFrame : Type := list (string * Series).

(** One entry of a row, whatever its column's dtype. *)
Inductive cell : Type :=
| NaN
| Num (q : Q)
| Str (s : string)
| Time (t : Z).

Module Frame.

Definition of_option {A} (f : A -> cell) (x : option A) : cell :=
  match x with
  | Some v => f v
  | None => NaN
  end.

Definition cells (s : Series) : list cell :=
  match s with
  | Numeric xs => map (of_option Num) xs
  | Object xs => map (of_option Str) xs
  | Datetime xs => map (of_option Time) xs
  end.

Definition len (s : Series) : nat :=
  match s with
  | Numeric xs => List.length xs
  | Object xs => List.length xs
  | Datetime xs => List.length xs
  end.

Definition isSome {A} (x : option A) : bool :=
  match x with
  | Some _ => true
  | None => false
  end.

(** [s.notna()] *)
Definition notna (s : Series) : list bool :=
  match s with
  | Numeric xs => map isSome xs
  | Object xs => map isSome xs
  | Datetime xs => map isSome xs
  end.

(** Boolean indexing [l[mask]]: the entries whose mask bit is set. *)
Fixpoint select {A} (mask : list bool) (l : list A) : list A :=
  match mask, l with
  | b :: mask', x :: l' =>
      if b then x :: select mask' l' else select mask' l'
  | _, _ => []
  end.

(** The mask of [l[m1][m2]] on [l] itself: the entries that [m1] keeps
    and that [m2] keeps among those. *)
Fixpoint and_then (m1 m2 : list bool) : list bool :=
  match m1 with
  | [] => []
  | false :: m1' => false :: and_then m1' m2
  | true :: m1' =>
      match m2 with
      | b :: m2' => b :: and_then m1' m2'
      | [] => false :: and_then m1' []
      end
  end.

Definition take (mask : list bool) (s : Series) : Series :=
  match s with
  | Numeric xs => Numeric (select mask xs)
  | Object xs => Object (select mask xs)
  | Datetime xs => Datetime (select mask xs)
  end.

(** [df[mask]] *)
Definition loc (mask : list bool) (df : DataFrame) : DataFrame :=
  map (fun c => (fst c, take mask (snd c))) df.

Definition columns (df : DataFrame) : list string := map fst df.

Definition nrows (df : DataFrame) : nat :=
  match df with
  | [] => O
  | (_, s) :: _ => len s
  end.

(** [df.shape] *)
Definition shape (df : DataFrame) : nat * nat := (nrows df, List.length df).

Fixpoint lookup (l : string) (df : DataFrame) : option Series :=
  match df with
  | [] => None
  | (l', s) :: df' => if String.eqb l l' then Some s else lookup l df'
  end.

(** [df[l]], a [KeyError] when the label is absent. *)
Definition getitem (l : string) (df : DataFrame) : result Series :=
  match lookup l df with
  | Some s => Ok s
  | None => Raise (KeyError (Label l))
  end.

(** [df[l] = s]: the column is replaced where it stands, or appended. *)
Fixpoint setitem (l : string) (s : Series) (df : DataFrame) : DataFrame :=
  match df with
  | [] => [(l, s)]
  | (l', s') :: df' =>
      if String.eqb l l' then (l', s) :: df' else (l', s') :: setitem l s df'
  end.

(** [x.fillna(v)] on the entries of a column; filling with NaN fills
    nothing. *)
Definition fillna {A} (v : option A) (xs : list (option A)) : list (option A) :=
  match v with
  | None => xs
  | Some _ => map (fun x => match x with None => v | Some _ => x end) xs
  end.

Definition cell_eqb (a b : cell) : bool :=
  match a, b with
  | NaN, NaN => true
  | Num p, Num q => Qeq_bool p q
  | Str s, Str t => String.eqb s t
  | Time s, Time t => Z.eqb s t
  | _, _ => false
  end.

Fixpoint row_eqb (r1 r2 : list cell) : bool :=
  match r1, r2 with
  | [], [] => true
  | a :: r1', b :: r2' => cell_eqb a b && row_eqb r1' r2'
  | _, _ => false
  end.

(** The rows of a frame of [n] rows, each the list of its cells in column
    order. *)
Fixpoint zip_cons {A} (hs : list A) (ts : list (list A)) : list (list A) :=
  match hs, ts with
  | h :: hs', t :: ts' => (h :: t) :: zip_cons hs' ts'
  | _, _ => []
  end.

Fixpoint rows_n (n : nat) (df : DataFrame) : list (list cell) :=
  match df with
  | [] => repeat [] n
  | (_, s) :: df' => zip_cons (cells s) (rows_n n df')
  end.

Definition rows (df : DataFrame) : list (list cell) := rows_n (nrows df) df.

(** [df.duplicated()]: a row is marked when an equal row stands before
    it. *)
Fixpoint duplicated_from (seen rs : list (list cell)) : list bool :=
  match rs with
  | [] => []
  | r :: rs' => existsb (row_eqb r) seen :: duplicated_from (r :: seen) rs'
  end.

Definition duplicated (df : DataFrame) : list bool :=
  duplicated_from [] (rows df).

(** All columns have the same number of entries. *)
Definition aligned (df : DataFrame) : Prop :=
  Forall (fun c => len (snd c) = nrows df) df.

End Frame.

(* ===================================================================== *)
(** ** [Series.mode()]: the most frequent values, sorted *)

Module Mode.

Fixpoint count (v : string) (l : list string) : nat :=
  match l with
  | [] => O
  | x :: l' => (if String.eqb v x then 1 else 0) + count v l'
  end.

Definition max_count (l : list string) : nat :=
  fold_right (fun x m => Nat.max (count x l) m) O l.

Fixpoint insert (x : string) (l : list string) : list string :=
  match l with
  | [] => [x]
  | y :: l' =>
      if String.eqb x y then l
      else if String.leb x y then x :: l else y :: insert x l'
  end.

(** Sorted by code point, each value once. *)
Fixpoint sort_unique (l : list string) : list string :=
  match l with
  | [] => []
  | x :: l' => insert x (sort_unique l')
  end.

(** [s.mode()]: NaN is left out. *)
Definition mode (xs : list (option string)) : list string :=
  let l := Stats.dropna xs in
  sort_unique (filter (fun v => Nat.eqb (count v l) (max_count l)) l).

(** [s.mode()[0]] *)
Definition mode0 (xs : list (option string)) : result string :=
  match mode xs with
  | m :: _ => Ok m
  | [] => Raise (KeyError (Pos 0))
  end.

End Mode.

(* ===================================================================== *)
(** ** The cleaning pipeline (sections 4 to 4.7 of the script) *)

Definition sales_person : string := "sales_person".
Definition total_sales_value : string := "total_sales_value".
Definition value_ : string := "value_".
Definition date : string := "date".
Definition priority : string := "priority".
Definition priority_numeric : string := "priority_numeric".

(** Section 4: [strip], [lower], drop the pound sign and a-circumflex,
    spaces to underscores. *)
Definition clean_label (l : string) : string :=
  PyStr.replace_char " "%char "_"%char
    (PyStr.remove_char PyStr.a_circumflex
       (PyStr.remove_char PyStr.pound
          (PyStr.lower (PyStr.strip l)))).

Definition normalize_columns (df : DataFrame) : DataFrame :=
  map (fun c => (clean_label (fst c), snd c)) df.

(** Section 4.1, first statement: [value_] becomes [total_sales_value]. *)
Definition rename_value (df : DataFrame) : DataFrame :=
  if existsb (String.eqb value_) (Frame.columns df)
  then map (fun c => (if String.eqb (fst c) value_ then total_sales_value
                      else fst c, snd c)) df
  else df.

(** Section 4.1, second statement:
    [df.dropna(subset=['sales_person', 'total_sales_value'])]. *)
Definition dropna_required (df : DataFrame) : result DataFrame :=
  match Frame.lookup sales_person df, Frame.lookup total_sales_value df with
  | Some sp, Some tsv =>
      Ok (Frame.loc (map (fun b => andb (fst b) (snd b))
                       (combine (Frame.notna sp) (Frame.notna tsv))) df)
  | Some _, None => Raise (KeyError (Labels [total_sales_value]))
  | None, Some _ => Raise (KeyError (Labels [sales_person]))
  | None, None => Raise (KeyError (Labels [sales_person; total_sales_value]))
  end.

(** Section 4.2: every numeric column has its NaN filled with its median. *)
Definition fill_numeric_col (s : Series) : Series :=
  match s with
  | Numeric xs => Numeric (Frame.fillna (Stats.median xs) xs)
  | _ => s
  end.

Definition fill_numeric (df : DataFrame) : DataFrame :=
  map (fun c => (fst c, fill_numeric_col (snd c))) df.

(** Section 4.3: every object column has its NaN filled with
    [mode()[0]]. *)
Definition fill_categorical_col (s : Series) : result Series :=
  match s with
  | Object xs => m <- Mode.mode0 xs ;; Ok (Object (Frame.fillna (Some m) xs))
  | _ => Ok s
  end.

Fixpoint fill_categorical (df : DataFrame) : result DataFrame :=
  match df with
  | [] => Ok []
  | (l, s) :: df' =>
      s' <- fill_categorical_col s ;;
      rest <- fill_categorical df' ;;
      Ok ((l, s') :: rest)
  end.

(** Section 4.5: the ordinal table. *)
Definition priority_map : list (string * Z) :=
  [("Low", 1%Z); ("Medium", 2%Z); ("High", 3%Z); ("Critical", 4%Z)].

Definition priority_keys : list string := map fst priority_map.

Fixpoint map_get (k : string) (m : list (string * Z)) : option Z :=
  match m with
  | [] => None
  | (k', v) :: m' => if String.eqb k k' then Some v else map_get k m'
  end.

(** [s.str.capitalize().str.strip()]: capitalised first, stripped after. *)
Definition normalize_priority (v : string) : string :=
  PyStr.strip (PyStr.capitalize v).

Definition str_capitalize_strip (s : Series) : result Series :=
  match s with
  | Object xs => Ok (Object (map (option_map normalize_priority) xs))
  | _ => Raise AttributeError
  end.

(** [s.isin(priority_map.keys())] *)
Definition isin_keys (s : Series) : list bool :=
  match s with
  | Object xs =>
      map (fun x => match x with
                    | Some v => existsb (String.eqb v) priority_keys
                    | None => false
                    end) xs
  | Numeric xs => map (fun _ => false) xs
  | Datetime xs => map (fun _ => false) xs
  end.

(** [s.map(priority_map)]: NaN where the table has no entry. *)
Definition map_priority (s : Series) : Series :=
  match s with
  | Object xs =>
      Numeric (map (fun x => match x with
                             | Some v => option_map inject_Z (map_get v priority_map)
                             | None => None
                             end) xs)
  | Numeric xs => Numeric (map (fun _ => None) xs)
  | Datetime xs => Numeric (map (fun _ => None) xs)
  end.

(** Line 104: [df['priority'] = df['priority'].str.capitalize().str.strip()] *)
Definition priority_column (df : DataFrame) : result DataFrame :=
  p <- Frame.getitem priority df ;;
  p' <- str_capitalize_strip p ;;
  Ok (Frame.setitem priority p' df).

(** Lines 105-106: [df_valid], the rows whose priority is a key of the
    table, with their [priority_numeric]. *)
Definition select_valid (df : DataFrame) : result DataFrame :=
  p <- Frame.getitem priority df ;;
  let df_valid := Frame.loc (isin_keys p) df in
  p <- Frame.getitem priority df_valid ;;
  Ok (Frame.setitem priority_numeric (map_priority p) df_valid).

(** Section 4.6: [df_valid.drop_duplicates()], first occurrences kept. *)
Definition drop_duplicates (df : DataFrame) : DataFrame :=
  Frame.loc (map negb (Frame.duplicated df)) df.

(** Section 4.7.  The quantiles are taken on numbers; timestamps count as
    their integer value; an object column has no quantile. *)
Definition as_numbers (s : Series) : result (list (option Q)) :=
  match s with
  | Numeric xs => Ok xs
  | Datetime xs => Ok (map (option_map inject_Z) xs)
  | Object _ => Raise TypeError
  end.

(** The number arithmetic of a run.  [F64] holds the float64 results (NaN
    and the infinities among them); the other fields are the routines of
    numpy and pandas the script calls on numbers. *)
Record Arith : Type := {
  F64 : Type;
  (* [s.quantile(k/4)] of a column, NaN skipped *)
  quartile : nat -> list (option Q) -> F64;
  (* a float literal *)
  literal : Q -> F64;
  (* [x - y], [x + y], [x * y] on floats *)
  fsub : F64 -> F64 -> F64;
  fadd : F64 -> F64 -> F64;
  fmul : F64 -> F64 -> F64;
  (* [v >= x] and [v <= x] for an entry [v] of a column and a float [x];
     an int64 entry is converted to float64 first *)
  ge : Q -> F64 -> bool;
  le : Q -> F64 -> bool;
  (* sum and mean of the values of a group that are present (for the
     mean, at least one): int64 sums wrap around, float64 sums round *)
  sum : list Q -> Q;
  avg : list Q -> Q
}.

Arguments quartile fl k xs : rename.
Arguments literal fl q : rename.
Arguments fsub fl x y : rename.
Arguments fadd fl x y : rename.
Arguments fmul fl x y : rename.
Arguments ge fl v x : rename.
Arguments le fl v x : rename.
Arguments sum fl l : rename.
Arguments avg fl l : rename.

(** Lines 120-125: [Q1], [Q3], [IQR], [lower_bound], [upper_bound]. *)
Definition lower_bound (fl : Arith) (xs : list (option Q)) : F64 fl :=
  let Q1 := quartile fl 1 xs in
  let Q3 := quartile fl 3 xs in
  let IQR := fsub fl Q3 Q1 in
  fsub fl Q1 (fmul fl (literal fl (3 # 2)) IQR).

Definition upper_bound (fl : Arith) (xs : list (option Q)) : F64 fl :=
  let Q1 := quartile fl 1 xs in
  let Q3 := quartile fl 3 xs in
  let IQR := fsub fl Q3 Q1 in
  fadd fl Q3 (fmul fl (literal fl (3 # 2)) IQR).

(** Lines 128-129, for one entry of the column:
    [(v >= lower_bound) & (v <= upper_bound)]; a comparison of NaN is
    False. *)
Definition in_bounds (fl : Arith) (xs : list (option Q)) (v : option Q)
  : bool :=
  match v with
  | Some x => ge fl x (lower_bound fl xs) && le fl x (upper_bound fl xs)
  | None => false
  end.

Definition outlier_filter (fl : Arith) (df_valid : DataFrame)
  : result DataFrame :=
  s <- Frame.getitem total_sales_value df_valid ;;
  xs <- as_numbers s ;;
  Ok (Frame.loc (map (in_bounds fl xs) xs) df_valid).

(** *** The arithmetic without rounding *)

(** [(lower_bound, upper_bound)]; NaN when there is no value at all. *)
Definition iqr_bounds (xs : list (option Q)) : option (Q * Q) :=
  match Stats.quantile4 1 xs, Stats.quantile4 3 xs with
  | Some Q1, Some Q3 =>
      let IQR := (Q3 - Q1)%Q in
      Some ((Q1 - (3 # 2) * IQR)%Q, (Q3 + (3 # 2) * IQR)%Q)
  | _, _ => None
  end.

(** [(v >= lower_bound) & (v <= upper_bound)]; a comparison with NaN is
    False. *)
Definition within (bounds : option (Q * Q)) (v : option Q) : bool :=
  match bounds, v with
  | Some (lo, hi), Some x => Qle_bool lo x && Qle_bool x hi
  | _, _ => false
  end.

(** An operation on numbers, NaN when an argument is NaN. *)
Definition lift2 (f : Q -> Q -> Q) (x y : option Q) : option Q :=
  match x, y with
  | Some a, Some b => Some (f a b)
  | _, _ => None
  end.

(** The arithmetic in which nothing is rounded and no sum overflows: a
    float is a rational or NaN.  It agrees with float64 and int64 as long as
    every intermediate result is representable, as on the small integers of
    the examples. *)
Definition exact : Arith :=
  {| F64 := option Q;
     quartile := Stats.quantile4;
     literal := Some;
     fsub := lift2 Qminus;
     fadd := lift2 Qplus;
     fmul := lift2 Qmult;
     ge := fun v x => match x with Some lo => Qle_bool lo v | None => false end;
     le := fun v x => match x with Some hi => Qle_bool v hi | None => false end;
     sum := fold_right Qplus 0%Q;
     avg := fun l => (fold_right Qplus 0 l / inject_Z (Z.of_nat (List.length l)))%Q
  |}.

(** Section 3, what the script prints about the raw table: [df.head()],
    [df.shape], [df.dtypes], [df.isnull().sum()]. *)
Inductive dtype : Type := number | object | datetime.

Definition dtype_of (s : Series) : dtype :=
  match s with
  | Numeric _ => number
  | Object _ => object
  | Datetime _ => datetime
  end.

Definition head_series (s : Series) : Series :=
  match s with
  | Numeric xs => Numeric (firstn 5 xs)
  | Object xs => Object (firstn 5 xs)
  | Datetime xs => Datetime (firstn 5 xs)
  end.

Definition count_missing (s : Series) : nat :=
  List.length (filter negb (Frame.notna s)).

Record Inspection : Type := {
  first_rows : DataFrame;
  raw_shape : nat * nat;
  dtypes : list (string * dtype);
  missing_per_column : list (string * nat)
}.

Definition inspect (df : DataFrame) : Inspection :=
  {| first_rows := map (fun c => (fst c, head_series (snd c))) df;
     raw_shape := Frame.shape df;
     dtypes := map (fun c => (fst c, dtype_of (snd c))) df;
     missing_per_column := map (fun c => (fst c, count_missing (snd c))) df |}.

Record Diagnostics : Type := {
  cleaned_columns : list string;
  final_shape : nat * nat
}.

Module Script.
Section Pipeline.

(** The arithmetic of the run, and the parser behind
    [pd.to_datetime(..., errors='coerce')]: for a string, given the column
    it stands in (the format is inferred from the column), and for a number
    (an epoch offset).  [None] is NaT. *)
Variable fl : Arith.
Variable parse_str : list (option string) -> string -> option Z.
Variable parse_num : Q -> option Z.

Definition bind_option {A B} (f : A -> option B) (x : option A) : option B :=
  match x with
  | Some v => f v
  | None => None
  end.

(** Section 4.4: [pd.to_datetime(s, errors='coerce')]. *)
Definition to_datetime (s : Series) : Series :=
  match s with
  | Object xs => Datetime (map (bind_option (parse_str xs)) xs)
  | Numeric xs => Datetime (map (bind_option parse_num) xs)
  | Datetime xs => Datetime xs
  end.

Definition convert_date (df : DataFrame) : result DataFrame :=
  d <- Frame.getitem date df ;;
  Ok (Frame.setitem date (to_datetime d) df).

(** The frame [df] of the script after section 4.3. *)
Definition imputed (raw : DataFrame) : result DataFrame :=
  df <- dropna_required (rename_value (normalize_columns raw)) ;;
  fill_categorical (fill_numeric df).

(** The frame [df] of the script at the end of the cleaning (after line
    104). *)
Definition cleaned_df (raw : DataFrame) : result DataFrame :=
  df <- imputed raw ;;
  df <- convert_date df ;;
  priority_column df.

(** [df_valid] before the outlier filter (sections 4 to 4.6). *)
Definition deduplicated (raw : DataFrame) : result DataFrame :=
  df <- cleaned_df raw ;;
  df_valid <- select_valid df ;;
  Ok (drop_duplicates df_valid).

(** [df_valid] at the end of section 4.7: the cleaned table. *)
Definition clean (raw : DataFrame) : result DataFrame :=
  df_valid <- deduplicated raw ;;
  outlier_filter fl df_valid.

(** Lines 131-135, what the script prints about the cleaning:
    [df.columns] and [df_valid.shape]. *)
Definition diagnostics (raw : DataFrame) : result Diagnostics :=
  df <- cleaned_df raw ;;
  df_valid <- clean raw ;;
  Ok {| cleaned_columns := Frame.columns df;
        final_shape := Frame.shape df_valid |}.

(** The script from section 4 on: whatever comes after the cleaning
    (statistics, correlation, charts, top and lowest performer) reads
    [df_valid] and is reached only when the cleaning has not raised. *)
Definition script {A} (analysis : DataFrame -> result A) (raw : DataFrame)
  : result A :=
  df_valid <- clean raw ;;
  analysis df_valid.

End Pipeline.
End Script.

(** A parser for the examples, not the one of pandas: it reads the shape
    [yyyy-mm-dd] (without checking the calendar) as the number [yyyymmdd];
    numbers are taken as they are when integral.  The theorems are for any
    parser. *)
Module IsoDate.

Definition digit (c : ascii) : option Z :=
  let n := nat_of_ascii c in
  if ((48 <=? n) && (n <=? 57))%nat then Some (Z.of_nat (n - 48)) else None.

Fixpoint digits (acc : Z) (l : list ascii) : option Z :=
  match l with
  | [] => Some acc
  | c :: l' =>
      match digit c with
      | Some d => digits (10 * acc + d)%Z l'
      | None => None
      end
  end.

Definition parse_str (_ : list (option string)) (s : string) : option Z :=
  match list_ascii_of_string s with
  | [y1; y2; y3; y4; "-"%char; m1; m2; "-"%char; d1; d2] =>
      digits 0%Z [y1; y2; y3; y4; m1; m2; d1; d2]
  | _ => None
  end.

Definition parse_num (q : Q) : option Z :=
  if Pos.eqb (Qden q) 1 then Some (Qnum q) else None.

End IsoDate.

(* ===================================================================== *)
(** ** Vocabulary of the statements *)

Module Spec.
Import Frame.

(** The number of rows a mask keeps. *)
Definition count_true (m : list bool) : nat := List.length (filter id m).

(** All columns have [n] entries. *)
Definition aligned_n (n : nat) (df : DataFrame) : Prop :=
Forall (fun c => len (snd c) = n) df.

(** The frame has a column [l], and it satisfies [P]. *)
Definition has_col (P : Series -> Prop) (l : string) (df : DataFrame) : Prop :=
exists s, lookup l df = Some s /\ P s.

Definition take_closed (P : Series -> Prop) : Prop :=
forall m s, P s -> P (take m s).

(** No entry of the column is NaN or NaT. *)
Definition no_missing (s : Series) : Prop :=
Forall (fun b => b = true) (notna s).

(** [df['total_sales_value']] as numbers, the way section 4.7 reads it. *)
Definition sales_values (df : DataFrame) : result (list (option Q)) :=
  s <- getitem total_sales_value df ;;
  as_numbers s.

(** Every entry of the column is a key of the ordinal table. *)
Definition in_ordinal_set (s : Series) : Prop :=
  exists xs, s = Object xs /\
    Forall (fun x => exists v, x = Some v /\ In v priority_keys) xs.

(** Every entry of the column is one of the numbers 1 to 4. *)
Definition ordinal_numbers (s : Series) : Prop :=
  exists xs, s = Numeric xs /\
    Forall (fun x => exists k, x = Some (inject_Z k) /\ (1 <= k <= 4)%Z) xs.

(** [v] is the key [k] up to letter case and surrounding white space. *)
Definition matches_key (v k : string) : bool :=
  String.eqb (PyStr.lower (PyStr.strip v)) (PyStr.lower k).

Definition is_KeyError_or_AttributeError (e : exn) : Prop :=
  exc_name e = "KeyError" \/ exc_name e = "AttributeError".

(** [m] comes first in the list: no entry is below it in code-point
    order. *)
Definition head_min (l : list string) : Prop :=
  match l with
  | [] => True
  | m :: _ => forall v, In v l -> String.leb m v = true
  end.


(** Column [s'] is column [s] but for entries that were missing in [s]. *)
Definition unchanged_where_present (s s' : Series) : Prop :=
  dtype_of s' = dtype_of s /\
  Forall2 (fun c c' => c <> NaN -> c' = c) (cells s) (cells s').

(** The rows the required-field rule drops. *)
Definition rows_dropped_required (raw : DataFrame) : result nat :=
  df1 <- dropna_required (rename_value (normalize_columns raw)) ;;
  Ok (nrows raw - nrows df1)%nat.

(** After lines 105-106 the two priority columns go together: the
    priorities are keys of the table and [priority_numeric] is their image;
    row selection keeps it so. *)
Definition priority_pair (df : DataFrame) : Prop :=
  exists xs,
    lookup priority df = Some (Object xs) /\
    Forall (fun x => exists v, x = Some v /\ In v priority_keys) xs /\
    lookup priority_numeric df = Some (map_priority (Object xs)).

(** Nothing is left to impute in the column: a numeric column is full or
    has no value at all (its median is NaN), an object column is full. *)
Definition settled (s : Series) : Prop :=
  match s with
  | Numeric xs =>
      Forall (fun x => isSome x = true) xs \/ Forall (fun x => x = None) xs
  | Object xs => Forall (fun x => isSome x = true) xs
  | Datetime _ => True
  end.

(** A mask that marks nothing. *)
Definition all_false (m : list bool) : Prop := Forall (fun b => b = false) m.

End Spec.

(* ===================================================================== *)
(** ** Tables for the examples *)

Module Examples.

(** The script on the example parser, without rounding. *)
Definition clean : DataFrame -> result DataFrame :=
  Script.clean exact IsoDate.parse_str IsoDate.parse_num.

Definition num (z : Z) : option Q := Some (inject_Z z).

(** A raw header as the file has it: [Value ] followed by the pound sign
    becomes [value_], then [total_sales_value]. *)
Definition value_header : string := "Value " ++ String PyStr.pound "".

(** One salesperson, one priority, one day; the values are the argument. *)
Definition ledger (vs : list Z) : DataFrame :=
  [("Sales Person", Object (map (fun _ => Some "Ann") vs));
   (value_header, Numeric (map num vs));
   ("Priority", Object (map (fun _ => Some "Low") vs));
   ("Date", Object (map (fun _ => Some "2024-03-01") vs))].

Definition ledger_clean (vs : list Z) : DataFrame :=
  [("sales_person", Object (map (fun _ => Some "Ann") vs));
   ("total_sales_value", Numeric (map num vs));
   ("priority", Object (map (fun _ => Some "Low") vs));
   ("date", Datetime (map (fun _ => Some 20240301%Z) vs));
   ("priority_numeric", Numeric (map (fun _ => num 1) vs))].

(** Four deals; the priorities are written carelessly. *)
Definition picky : DataFrame :=
  [("Sales Person", Object [Some "Ann"; Some "Bob"; Some "Cid"; Some "Dee"]);
   (value_header, Numeric [num 100; num 110; num 120; num 105]);
   ("Priority", Object [Some " low"; Some "HIGH "; Some "banana"; Some "lOw"]);
   ("Date", Object [Some "2024-03-01"; Some "2024-03-02"; Some "2024-03-03";
                    Some "2024-03-04"])].

(** The region is known for the first row only, and the first row has no
    salesperson. *)
Definition regional : DataFrame :=
  [("Sales Person", Object [None; Some "Ann"; Some "Bob"]);
   (value_header, Numeric [num 100; num 110; num 120]);
   ("Priority", Object [Some "Low"; Some "High"; Some "Low"]);
   ("Date", Object [Some "2024-03-01"; Some "2024-03-02"; Some "2024-03-03"]);
   ("Region", Object [Some "North"; None; None])].

(** A file with its header row and nothing else: [read_csv] makes every
    column an empty object column. *)
Definition header_only : DataFrame :=
  [("Sales Person", Object []);
   (value_header, Object []);
   ("Priority", Object []);
   ("Date", Object [])].

(** The scenario of the specification: (salesperson, value, priority,
    date) for Alice, Bob without a value, and Alice again. *)
Definition scenario : DataFrame :=
  [("sales_person", Object [Some "Alice"; Some "Bob"; Some "Alice"]);
   ("total_sales_value", Numeric [num 100; None; num 100]);
   ("priority", Object [Some "Low"; Some "High"; Some "Low"]);
   ("date", Object [Some "2024-01-01"; Some "2024-01-02"; Some "2024-01-01"])].

(** Two tables of seven deals that differ in their last two rows only. *)
Definition audit (last_two : list (option string * option Q * string)) : DataFrame :=
  let sp := map (fun r => fst (fst r)) last_two in
  let v := map (fun r => snd (fst r)) last_two in
  let p := map (fun r => Some (snd r)) last_two in
  [("Sales Person",
    Object ([Some "Ann"; Some "Bob"; Some "Cid"; Some "Dee"; Some "Eve"] ++ sp));
   (value_header,
    Numeric ([num 100; num 104; num 98; num 102; num 101] ++ v));
   ("Priority",
    Object ([Some "Low"; Some "High"; Some "Low"; Some "Medium";
             Some "Critical"] ++ p));
   ("Date",
    Object (map (fun _ => Some "2024-03-01") (seq 0 7)))].

Definition audit_a : DataFrame :=
  audit [(None, None, "Low"); (Some "Bob", num 100, "banana")].

Definition audit_b : DataFrame :=
  audit [(None, num 100, "banana"); (Some "Bob", None, "Low")].


(** Four deals; one date is missing and one is not a date. *)
Definition dated : DataFrame :=
  [("Sales Person", Object [Some "Ann"; Some "Bob"; Some "Cid"; Some "Dee"]);
   (value_header, Numeric [num 100; num 110; num 120; num 105]);
   ("Priority", Object [Some "Low"; None; Some "High"; Some "Low"]);
   ("Date", Object [Some "2024-03-01"; None; Some "soon"; Some "2024-03-01"]);
   ("Units", Numeric [num 3; None; num 5; num 4])].

(** [dated] after the required-field drop, and after both imputations. *)
Definition dated_required : DataFrame :=
  [("sales_person", Object [Some "Ann"; Some "Bob"; Some "Cid"; Some "Dee"]);
   ("total_sales_value", Numeric [num 100; num 110; num 120; num 105]);
   ("priority", Object [Some "Low"; None; Some "High"; Some "Low"]);
   ("date", Object [Some "2024-03-01"; None; Some "soon"; Some "2024-03-01"]);
   ("units", Numeric [num 3; None; num 5; num 4])].

Definition dated_imputed : DataFrame :=
  [("sales_person", Object [Some "Ann"; Some "Bob"; Some "Cid"; Some "Dee"]);
   ("total_sales_value", Numeric [num 100; num 110; num 120; num 105]);
   ("priority", Object [Some "Low"; Some "Low"; Some "High"; Some "Low"]);
   ("date", Object [Some "2024-03-01"; Some "2024-03-01"; Some "soon";
                    Some "2024-03-01"]);
   ("units", Numeric [num 3; num 4; num 5; num 4])].

End Examples.

(* ===================================================================== *)
(** ** Aggregations over the cleaned table (sections 6.1 to 8) *)

(** The group-wise sums, means and counts of [total_sales_value] by
    [sales_person] and by [priority], and the top and lowest performer.
    The key column is a column of strings and the values are numbers, as
    the cleaning delivers them for a file of names and amounts; the sums
    and means are those of the run's arithmetic; plots, [describe()] and
    the correlation (square roots) are left out. *)
Module Analysis.

(** [s.sum()]: the sum of the values that are present. *)
Definition total (fl : Arith) (vs : list (option Q)) : Q :=
  sum fl (Stats.dropna vs).

(** [s.count()]: the number of values that are present. *)
Definition count (vs : list (option Q)) : nat :=
  List.length (Stats.dropna vs).

(** [s.mean()]: NaN when no value is present. *)
Definition mean (fl : Arith) (vs : list (option Q)) : option Q :=
  match Stats.dropna vs with
  | [] => None
  | l => Some (avg fl l)
  end.

(** The values of the rows whose key is [k]. *)
Fixpoint group_values (k : string) (ks : list (option string))
    (vs : list (option Q)) : list (option Q) :=
  match ks, vs with
  | key :: ks', v :: vs' =>
      match key with
      | Some k' =>
          if String.eqb k k' then v :: group_values k ks' vs'
          else group_values k ks' vs'
      | None => group_values k ks' vs'
      end
  | _, _ => []
  end.

(** The groups of [df.groupby(key)]: the keys that are present, each once,
    in sorted order. *)
Definition group_keys (ks : list (option string)) : list string :=
  Mode.sort_unique (Stats.dropna ks).

(** [df.groupby(key)[col].sum()] *)
Definition groupby_sum (fl : Arith) (ks : list (option string))
    (vs : list (option Q)) : list (string * Q) :=
  map (fun k => (k, total fl (group_values k ks vs))) (group_keys ks).


(** One row of [sales_summary]: [total_sales], [avg_sales],
    [deal_count]. *)
Record summary_row : Type := {
  total_sales : Q;
  avg_sales : option Q;
  deal_count : nat
}.

(** [df.groupby(key).agg(total_sales=(col, 'sum'), avg_sales=(col, 'mean'),
    deal_count=(col, 'count'))], before it is sorted. *)
Definition groupby_agg (fl : Arith) (ks : list (option string))
    (vs : list (option Q)) : list (string * summary_row) :=
  map (fun k => let g := group_values k ks vs in
                (k, {| total_sales := total fl g;
                       avg_sales := mean fl g;
                       deal_count := count g |}))
      (group_keys ks).

(** [s] is [s0] after [sort_values(ascending=False)]: the same entries,
    largest first.  The order among equal values is the sort routine's
    business and is left open. *)
Fixpoint descending (l : list Q) : Prop :=
  match l with
  | [] => True
  | x :: l' => Forall (fun y => (y <= x)%Q) l' /\ descending l'
  end.

Definition sorted_descending {A} (value : A -> Q) (s0 s : list A) : Prop :=
  Permutation s0 s /\ descending (map value s).

(** The first entry that holds the largest value, if there is an entry. *)
Fixpoint argmax (s : list (string * Q)) : option (string * Q) :=
  match s with
  | [] => None
  | (k, v) :: s' =>
      match argmax s' with
      | Some (k', v') => if Qle_bool v' v then Some (k, v) else Some (k', v')
      | None => Some (k, v)
      end
  end.

(** The first entry that holds the smallest value. *)
Fixpoint argmin (s : list (string * Q)) : option (string * Q) :=
  match s with
  | [] => None
  | (k, v) :: s' =>
      match argmin s' with
      | Some (k', v') => if Qle_bool v v' then Some (k, v) else Some (k', v')
      | None => Some (k, v)
      end
  end.

(** [s.idxmax()] and [s.idxmin()]: the label of that entry.  [None]: the
    Series is empty and pandas raises [ValueError]. *)
Definition idxmax (s : list (string * Q)) : option string :=
  option_map fst (argmax s).

Definition idxmin (s : list (string * Q)) : option string :=
  option_map fst (argmin s).

(** [s.max()] and [s.min()]: NaN ([None]) on an empty Series. *)
Fixpoint smax (s : list (string * Q)) : option Q :=
  match s with
  | [] => None
  | (_, v) :: s' =>
      match smax s' with
      | Some m => Some (if Qle_bool m v then v else m)
      | None => Some v
      end
  end.

Fixpoint smin (s : list (string * Q)) : option Q :=
  match s with
  | [] => None
  | (_, v) :: s' =>
      match smin s' with
      | Some m => Some (if Qle_bool v m then v else m)
      | None => Some v
      end
  end.

(** Section 8: top and lowest performer of the sorted [sales_by_person],
    each with the total; [None] where [idxmax] raises. *)
Definition performers (s : list (string * Q))
  : option ((string * option Q) * (string * option Q)) :=
  match idxmax s, idxmin s with
  | Some top, Some low => Some ((top, smax s), (low, smin s))
  | _, _ => None
  end.

(** [s.reindex(labels)]: the entry of each label, NaN where the Series has
    none. *)
Fixpoint entry (k : string) (s : list (string * Q)) : option Q :=
  match s with
  | [] => None
  | (k', v) :: s' => if String.eqb k k' then Some v else entry k s'
  end.

Definition reindex (labels : list string) (s : list (string * Q))
  : list (string * option Q) :=
  map (fun k => (k, entry k s)) labels.

(** Section 7.4:
    [groupby('priority')[...].sum().reindex(['Critical', 'High', 'Medium',
    'Low'])]. *)
Definition priority_order : list string := ["Critical"; "High"; "Medium"; "Low"].

Definition totals_by_priority (fl : Arith) (ps : list (option string))
    (vs : list (option Q)) : list (string * option Q) :=
  reindex priority_order (groupby_sum fl ps vs).

(** The key column and the values the aggregations read. *)
Definition keyed_values (key : string) (df : DataFrame)
  : option (list (option string) * list (option Q)) :=
  match Frame.lookup key df, Frame.lookup total_sales_value df with
  | Some (Object ks), Some (Numeric vs) => Some (ks, vs)
  | _, _ => None
  end.

(** Each entry is below the entries after it, in code-point order. *)
Fixpoint strictly_ascending (l : list string) : Prop :=
  match l with
  | [] => True
  | x :: l' =>
      Forall (fun y => String.leb x y = true /\ x <> y) l' /\
      strictly_ascending l'
  end.

End Analysis.

(* ===================================================================== *)
(** ** Vocabulary for the properties of labels and priorities *)

Module Chars.

(** Every character of the string passes the test. *)
Fixpoint all_chars (p : ascii -> bool) (s : string) : bool :=
  match s with
  | EmptyString => true
  | String c s' => p c && all_chars p s'
  end.

(** A-circumflex in upper case, U+00C2: [lower] turns it into U+00E2. *)
Definition A_circumflex : ascii := ascii_of_nat 194.

(** A character a normalised label keeps: no blank, neither of the two
    removed characters, no upper-case letter. *)
Definition label_char (c : ascii) : bool :=
  negb (Ascii.eqb c " ") && negb (Ascii.eqb c PyStr.pound)
  && negb (Ascii.eqb c PyStr.a_circumflex) && negb (PyStr.isupper c).

(** A character a normalised label can hold: not the blank, neither of
    the two removed characters, nor the upper-case A-circumflex, which
    [lower] turns into the removed one. *)
Definition kept_char (c : ascii) : bool :=
  negb (Ascii.eqb c " ") && negb (Ascii.eqb c PyStr.pound)
  && negb (Ascii.eqb c PyStr.a_circumflex) && negb (Ascii.eqb c A_circumflex).

(** A character that normalisation does not remove. *)
Definition plain_char (c : ascii) : bool :=
  negb (Ascii.eqb c PyStr.pound) && negb (Ascii.eqb c PyStr.a_circumflex)
  && negb (Ascii.eqb c A_circumflex).

(** The string does not begin, or end, with white space. *)
Definition starts_ok (s : string) : bool :=
  match s with
  | EmptyString => true
  | String c _ => negb (PyStr.isspace c)
  end.

Fixpoint ends_ok (s : string) : bool :=
  match s with
  | EmptyString => true
  | String c EmptyString => negb (PyStr.isspace c)
  | String _ s' => ends_ok s'
  end.

End Chars.

(* ===================================================================== *)
(** ** Vocabulary for the properties of median and quantiles *)

Module Order.




End Order.

(* ===================================================================== *)
(** * Properties *)

Unset Implicit Arguments.

(** ** The error monad *)

Lemma bind_Ok_inv {A B} (r : result A) (k : A -> result B) (b : B) :
  bind r k = Ok b -> exists a, r = Ok a /\ k a = Ok b.
Proof. destruct r as [a|e]; simpl; intros H; [eauto | discriminate]. Qed.

Lemma bind_Raise {A B} (r : result A) (k : A -> result B) (e : exn) :
  r = Raise e -> bind r k = Raise e.
Proof. intros ->; reflexivity. Qed.

(** Splits a hypothesis [x <- r ;; k = Ok b] into [r = Ok a] and
    [k a = Ok b], as often as it applies. *)
Ltac bind_inv H :=
  let a := fresh "a" in
  let Ha := fresh "H" a in
  apply bind_Ok_inv in H; destruct H as (a & Ha & H).

Tactic Notation "unbind" hyp(H) "as" ident(a) ident(Ha) :=
  apply bind_Ok_inv in H; destruct H as (a & Ha & H).

(** ** Boolean indexing *)

Module SelectFacts.
Import Frame Spec.

Lemma select_nil_r {A} (m : list bool) : select m (@nil A) = [].
Proof. destruct m as [|[] m]; reflexivity. Qed.

Lemma select_In {A} (m : list bool) (l : list A) (x : A) :
  In x (select m l) -> In x l.
Proof.
  revert l; induction m as [|b m IH]; intros [|y l]; simpl; try tauto.
  destruct b; simpl; intros H.
  - destruct H as [->|H]; auto.
  - right; auto.
Qed.

Lemma select_Forall {A} (P : A -> Prop) (m : list bool) (l : list A) :
  Forall P l -> Forall P (select m l).
Proof.
  intros H. apply Forall_forall. intros x Hx.
  rewrite Forall_forall in H. eauto using select_In.
Qed.

Lemma select_map {A B} (f : A -> B) (m : list bool) (l : list A) :
  select m (map f l) = map f (select m l).
Proof.
  revert l; induction m as [|b m IH]; intros [|y l]; simpl; auto.
  destruct b; simpl; now rewrite IH.
Qed.

(** Two selections in a row are one selection. *)
Lemma select_and_then {A} (m1 m2 : list bool) (l : list A) :
  select m2 (select m1 l) = select (and_then m1 m2) l.
Proof.
  revert m2 l. induction m1 as [|b m1 IH]; intros m2 l.
  - simpl. apply select_nil_r.
  - destruct l as [|x l].
    + simpl. rewrite !select_nil_r. reflexivity.
    + destruct b; simpl.
      * destruct m2 as [|b2 m2]; simpl.
        -- now rewrite <- IH.
        -- destruct b2; now rewrite IH.
      * apply IH.
Qed.

(** A mask computed from the entries keeps the entries that pass. *)
Lemma select_pred {A} (p : A -> bool) (l : list A) :
  select (map p l) l = filter p l.
Proof.
  induction l as [|x l IH]; simpl; auto.
  destruct (p x); now rewrite IH.
Qed.

Lemma select_all {A} (m : list bool) (l : list A) :
  Forall (fun b => b = true) m -> List.length m = List.length l ->
  select m l = l.
Proof.
  revert l; induction m as [|b m IH]; intros [|y l] Hm Hl; simpl in *;
    try discriminate; auto.
  inversion Hm as [|? ? Hb Hm']; subst. f_equal. apply IH; auto.
Qed.

Lemma select_length {A} (m : list bool) (l : list A) :
  List.length m = List.length l -> List.length (select m l) = count_true m.
Proof.
  unfold count_true.
  revert l; induction m as [|b m IH]; intros [|y l] Hl; simpl in *;
    try discriminate; auto.
  destruct b; simpl; rewrite IH; auto.
Qed.

Lemma select_length_le {A} (m : list bool) (l : list A) :
  (List.length (select m l) <= List.length l)%nat.
Proof.
  revert l; induction m as [|b m IH]; intros [|y l]; simpl; try lia.
  specialize (IH l). destruct b; simpl; lia.
Qed.

Lemma select_zip_cons {A} (m : list bool) (hs : list A) (ts : list (list A)) :
  select m (zip_cons hs ts) = zip_cons (select m hs) (select m ts).
Proof.
  revert hs ts; induction m as [|b m IH]; intros [|h hs] [|t ts]; simpl; auto.
  - destruct b; simpl; auto. now destruct (select m hs).
  - destruct b; simpl; now rewrite IH.
Qed.

Lemma select_repeat {A} (m : list bool) (x : A) :
  select m (repeat x (List.length m)) = repeat x (count_true m).
Proof.
  unfold count_true.
  induction m as [|b m IH]; simpl; auto.
  destruct b; simpl; now rewrite IH.
Qed.

End SelectFacts.

(** ** Frames: columns, lookups, row selection *)

Module FrameFacts.
Import Frame Spec SelectFacts.

Lemma cells_take (m : list bool) (s : Series) :
  cells (take m s) = select m (cells s).
Proof. destruct s; simpl; now rewrite select_map. Qed.

Lemma len_cells (s : Series) : len s = List.length (cells s).
Proof. destruct s; simpl; now rewrite length_map. Qed.

Lemma len_notna (s : Series) : List.length (notna s) = len s.
Proof. destruct s; simpl; now rewrite length_map. Qed.

Lemma len_take (m : list bool) (s : Series) :
  List.length m = len s -> len (take m s) = count_true m.
Proof. destruct s; simpl; apply select_length. Qed.

Lemma len_take_le (m : list bool) (s : Series) : (len (take m s) <= len s)%nat.
Proof. destruct s; simpl; apply select_length_le. Qed.

Lemma take_all (m : list bool) (s : Series) :
  Forall (fun b => b = true) m -> List.length m = len s -> take m s = s.
Proof. destruct s; simpl; intros; f_equal; now apply select_all. Qed.

Lemma columns_loc (m : list bool) (df : DataFrame) :
  columns (loc m df) = columns df.
Proof. unfold columns, loc. rewrite map_map. reflexivity. Qed.

Lemma lookup_loc (l : string) (m : list bool) (df : DataFrame) :
  lookup l (loc m df) = option_map (take m) (lookup l df).
Proof.
  induction df as [|[l' s] df IH]; simpl; auto.
  destruct (String.eqb l l'); auto.
Qed.

Lemma lookup_In (l : string) (s : Series) (df : DataFrame) :
  lookup l df = Some s -> In (l, s) df.
Proof.
  induction df as [|[l' s'] df IH]; simpl; try discriminate.
  destruct (String.eqb_spec l l') as [->|Hne]; intros H.
  - left. congruence.
  - right; auto.
Qed.

Lemma lookup_None (l : string) (df : DataFrame) :
  lookup l df = None <-> ~ In l (columns df).
Proof.
  induction df as [|[l' s'] df IH]; simpl; [tauto|].
  destruct (String.eqb_spec l l') as [->|Hne].
  - split; [discriminate | intros H; exfalso; auto].
  - rewrite IH. split; intros H; [intros [E|E]; [congruence | auto] | auto].
Qed.

Lemma lookup_Some_columns (l : string) (s : Series) (df : DataFrame) :
  lookup l df = Some s -> In l (columns df).
Proof.
  intros H. apply lookup_In in H.
  unfold columns. now apply (in_map fst) in H.
Qed.

Lemma lookup_setitem_same (l : string) (s : Series) (df : DataFrame) :
  lookup l (setitem l s df) = Some s.
Proof.
  induction df as [|[l' s'] df IH]; simpl.
  - now rewrite String.eqb_refl.
  - destruct (String.eqb l l') eqn:E; simpl; rewrite E; auto.
Qed.

Lemma lookup_setitem_other (l l' : string) (s : Series) (df : DataFrame) :
  l <> l' -> lookup l' (setitem l s df) = lookup l' df.
Proof.
  intros Hne. induction df as [|[k t] df IH]; simpl.
  - destruct (String.eqb_spec l' l); congruence.
  - destruct (String.eqb_spec l k) as [->|Hk]; simpl.
    + destruct (String.eqb_spec l' k); congruence.
    + destruct (String.eqb l' k); auto.
Qed.

(** Writing back the column that is there changes nothing. *)
Lemma setitem_id (l : string) (s : Series) (df : DataFrame) :
  lookup l df = Some s -> setitem l s df = df.
Proof.
  induction df as [|[k t] df IH]; simpl; try discriminate.
  destruct (String.eqb_spec l k) as [->|Hk]; intros H.
  - congruence.
  - now rewrite IH.
Qed.

Lemma columns_setitem_present (l : string) (s : Series) (df : DataFrame) :
  In l (columns df) -> columns (setitem l s df) = columns df.
Proof.
  induction df as [|[k t] df IH]; simpl; [tauto|].
  destruct (String.eqb_spec l k) as [->|Hk]; simpl; auto.
  intros [E|H]; [congruence|]. now rewrite IH.
Qed.

Lemma columns_setitem_absent (l : string) (s : Series) (df : DataFrame) :
  ~ In l (columns df) -> columns (setitem l s df) = columns df ++ [l].
Proof.
  induction df as [|[k t] df IH]; simpl; auto.
  destruct (String.eqb_spec l k) as [->|Hk]; simpl; intros H.
  - exfalso; auto.
  - rewrite IH; auto.
Qed.

(** The columns of [setitem l s df] are [s] and columns of [df]. *)
Lemma In_setitem (l : string) (s : Series) (df : DataFrame) (c : string * Series) :
  In c (setitem l s df) -> snd c = s \/ In c df.
Proof.
  induction df as [|[k t] df IH]; simpl.
  - intros [<-|[]]; auto.
  - destruct (String.eqb l k); simpl; intros [<-|H]; auto.
    destruct (IH H); auto.
Qed.

Lemma Forall_setitem (P : string * Series -> Prop) (l : string) (s : Series)
      (df : DataFrame) :
  (forall k, P (k, s)) -> Forall P df -> Forall P (setitem l s df).
Proof.
  intros Hs H. induction H as [|[k t] df Hc H IH]; simpl.
  - constructor; auto.
  - destruct (String.eqb l k); constructor; auto.
Qed.

(** *** Equal rows *)

Lemma cell_eqb_refl c : cell_eqb c c = true.
Proof.
  destruct c; simpl; auto using String.eqb_refl, Z.eqb_refl.
  apply Qeq_bool_iff. reflexivity.
Qed.

Lemma row_eqb_refl r : row_eqb r r = true.
Proof. induction r; simpl; auto. now rewrite cell_eqb_refl. Qed.

(** *** Alignment *)

Lemma aligned_aligned_n (df : DataFrame) : aligned df -> aligned_n (nrows df) df.
Proof. auto. Qed.

Lemma aligned_n_aligned (n : nat) (df : DataFrame) : aligned_n n df -> aligned df.
Proof.
  unfold aligned, aligned_n. intros H.
  destruct df as [|[l s] df]; [constructor|].
  inversion H as [|? ? Hs Hdf]; subst; simpl in *.
  constructor; auto. 
Qed.

Lemma aligned_n_nrows (n : nat) (df : DataFrame) :
  aligned_n n df -> df <> [] -> nrows df = n.
Proof.
  intros H Hne. destruct df as [|[l s] df]; [congruence|].
  now inversion H.
Qed.

Lemma aligned_n_lookup (n : nat) (l : string) (s : Series) (df : DataFrame) :
  aligned_n n df -> lookup l df = Some s -> len s = n.
Proof.
  intros H Hl. apply lookup_In in Hl.
  unfold aligned_n in H. rewrite Forall_forall in H. apply (H _ Hl).
Qed.

Lemma aligned_n_loc (n : nat) (m : list bool) (df : DataFrame) :
  aligned_n n df -> List.length m = n -> aligned_n (count_true m) (loc m df).
Proof.
  intros H Hm. unfold aligned_n, loc. rewrite Forall_map. simpl.
  eapply Forall_impl; [|exact H]. simpl. intros [l s] Hs. simpl in *.
  apply len_take. congruence.
Qed.

Lemma aligned_n_setitem (n : nat) (l : string) (s : Series) (df : DataFrame) :
  aligned_n n df -> len s = n -> aligned_n n (setitem l s df).
Proof. intros H Hs. apply Forall_setitem; auto. Qed.

Lemma loc_all (n : nat) (m : list bool) (df : DataFrame) :
  aligned_n n df -> List.length m = n -> Forall (fun b => b = true) m ->
  loc m df = df.
Proof.
  intros H Hm Ht. unfold loc.
  induction H as [|[l s] df Hs H IH]; simpl; auto.
  rewrite IH. f_equal. f_equal. apply take_all; auto. simpl in Hs. congruence.
Qed.

End FrameFacts.

(** ** Columns that keep a property through the stages *)

Module ColumnFacts.
Import Frame Spec SelectFacts FrameFacts.

Lemma notna_take (m : list bool) (s : Series) :
  notna (take m s) = select m (notna s).
Proof. destruct s; simpl; now rewrite select_map. Qed.

Lemma no_missing_take : take_closed no_missing.
Proof.
  intros m s H. unfold no_missing. rewrite notna_take.
  now apply select_Forall.
Qed.

Lemma has_col_weaken (P Q : Series -> Prop) l df :
  (forall s, P s -> Q s) -> has_col P l df -> has_col Q l df.
Proof. intros HPQ (s & Hl & Hs). exists s; auto. Qed.

Lemma has_col_loc (P : Series -> Prop) l m df :
  take_closed P -> has_col P l df -> has_col P l (loc m df).
Proof.
  intros HP (s & Hl & Hs). exists (take m s). split; auto.
  rewrite lookup_loc, Hl. reflexivity.
Qed.

Lemma has_col_setitem_other (P : Series -> Prop) l l' s df :
  l <> l' -> has_col P l' df -> has_col P l' (setitem l s df).
Proof.
  intros Hne (t & Hl & Ht). exists t. split; auto.
  now rewrite lookup_setitem_other.
Qed.

Lemma has_col_setitem_same (P : Series -> Prop) l s df :
  P s -> has_col P l (setitem l s df).
Proof. intros Hs. exists s. split; auto. apply lookup_setitem_same. Qed.

(** *** What each stage returns *)

Lemma dropna_required_Ok df df1 :
  dropna_required df = Ok df1 ->
  exists sp tsv,
    lookup sales_person df = Some sp /\
    lookup total_sales_value df = Some tsv /\
    df1 = loc (map (fun b => andb (fst b) (snd b))
                 (combine (notna sp) (notna tsv))) df.
Proof.
  unfold dropna_required.
  destruct (lookup sales_person df) as [sp|],
           (lookup total_sales_value df) as [tsv|]; try discriminate.
  intros [= <-]. eauto.
Qed.

Lemma getitem_Ok l df s : getitem l df = Ok s -> lookup l df = Some s.
Proof. unfold getitem. destruct (lookup l df); congruence. Qed.

Lemma priority_column_Ok df df' :
  priority_column df = Ok df' ->
  exists xs,
    lookup priority df = Some (Object xs) /\
    df' = setitem priority
            (Object (map (option_map normalize_priority) xs)) df.
Proof.
  unfold priority_column. intros H.
  bind_inv H. apply getitem_Ok in Ha.
  bind_inv H. destruct a as [xs|xs|xs]; try discriminate.
  injection Ha0 as <-. injection H as <-. eauto.
Qed.

Lemma select_valid_Ok df dv :
  select_valid df = Ok dv ->
  exists p,
    lookup priority df = Some p /\
    dv = setitem priority_numeric (map_priority (take (isin_keys p) p))
           (loc (isin_keys p) df).
Proof.
  unfold select_valid. intros H.
  bind_inv H. apply getitem_Ok in Ha.
  bind_inv H. apply getitem_Ok in Ha0.
  rewrite lookup_loc, Ha in Ha0. simpl in Ha0. injection Ha0 as <-.
  injection H as <-. eauto.
Qed.

(** Without rounding, the two comparisons are the test against
    [iqr_bounds]. *)
Lemma in_bounds_exact xs v : in_bounds exact xs v = within (iqr_bounds xs) v.
Proof.
  unfold in_bounds, lower_bound, upper_bound, iqr_bounds, within. simpl.
  destruct (Stats.quantile4 1 xs) as [Q1|], (Stats.quantile4 3 xs) as [Q3|],
    v as [x|]; reflexivity.
Qed.

Lemma outlier_filter_Ok fl dv out :
  outlier_filter fl dv = Ok out ->
  exists s xs,
    lookup total_sales_value dv = Some s /\
    as_numbers s = Ok xs /\
    out = loc (map (in_bounds fl xs) xs) dv.
Proof.
  unfold outlier_filter. intros H.
  bind_inv H. apply getitem_Ok in Ha.
  bind_inv H. injection H as <-. eauto.
Qed.

(** *** Imputation, column by column *)

Lemma lookup_fill_numeric l df :
  lookup l (fill_numeric df) = option_map fill_numeric_col (lookup l df).
Proof.
  induction df as [|[k s] df IH]; simpl; auto.
  destruct (String.eqb l k); auto.
Qed.

Lemma fill_categorical_Forall2 df df' :
  fill_categorical df = Ok df' ->
  Forall2 (fun c c' => fst c' = fst c /\
                       fill_categorical_col (snd c) = Ok (snd c')) df df'.
Proof.
  revert df'. induction df as [|[l s] df IH]; simpl; intros df' H.
  - injection H as <-. constructor.
  - bind_inv H. bind_inv H. injection H as <-.
    constructor; auto.
Qed.

Lemma lookup_fill_categorical l df df' s :
  fill_categorical df = Ok df' -> lookup l df = Some s ->
  exists s', lookup l df' = Some s' /\ fill_categorical_col s = Ok s'.
Proof.
  intros H. apply fill_categorical_Forall2 in H.
  induction H as [|[k t] [k' t'] df df' [Hk Ht] H IH]; simpl in *;
    try discriminate.
  subst k'. destruct (String.eqb l k); auto.
  intros [= ->]. eauto.
Qed.

Lemma columns_fill_categorical df df' :
  fill_categorical df = Ok df' -> columns df' = columns df.
Proof.
  intros H. apply fill_categorical_Forall2 in H. unfold columns.
  induction H as [|c c' df df' [Hk _] H IH]; simpl; congruence.
Qed.

Lemma columns_fill_numeric df : columns (fill_numeric df) = columns df.
Proof. unfold columns, fill_numeric. now rewrite map_map. Qed.

Lemma has_col_fill_numeric (P : Series -> Prop) l df :
  (forall s, P s -> P (fill_numeric_col s)) ->
  has_col P l df -> has_col P l (fill_numeric df).
Proof.
  intros HP (s & Hl & Hs). exists (fill_numeric_col s).
  rewrite lookup_fill_numeric, Hl. auto.
Qed.

Lemma has_col_fill_categorical (P : Series -> Prop) l df df' :
  (forall s s', P s -> fill_categorical_col s = Ok s' -> P s') ->
  fill_categorical df = Ok df' ->
  has_col P l df -> has_col P l df'.
Proof.
  intros HP H (s & Hl & Hs).
  destruct (lookup_fill_categorical _ _ _ _ H Hl) as (s' & Hl' & Hc).
  exists s'. eauto.
Qed.

(** Filling keeps what is there. *)
Lemma fillna_Some {A} (v : option A) (xs : list (option A)) :
  Forall2 (fun x y => isSome x = true -> y = x) xs (fillna v xs).
Proof.
  destruct v as [v|]; simpl.
  - induction xs as [|[x|] xs IH]; simpl; constructor; auto. discriminate.
  - induction xs; constructor; auto.
Qed.

Lemma fillna_full {A} (v : option A) (xs : list (option A)) :
  Forall (fun x => isSome x = true) xs -> fillna v xs = xs.
Proof.
  destruct v as [v|]; simpl; auto.
  induction 1 as [|[x|] xs Hx H IH]; simpl; try discriminate; congruence.
Qed.

Lemma fillna_Some_full {A} (v : A) (xs : list (option A)) :
  Forall (fun x => isSome x = true) (fillna (Some v) xs).
Proof. simpl. induction xs as [|[x|] xs IH]; simpl; constructor; auto. Qed.

Lemma Forall_isSome_map {A} (xs : list (option A)) :
  Forall (fun b => b = true) (map isSome xs) <->
  Forall (fun x => isSome x = true) xs.
Proof. now rewrite Forall_map. Qed.

Lemma no_missing_fill_numeric s : no_missing s -> no_missing (fill_numeric_col s).
Proof.
  destruct s as [xs|xs|xs]; simpl; auto.
  unfold no_missing; simpl. rewrite !Forall_isSome_map.
  intros H. now rewrite fillna_full.
Qed.

Lemma no_missing_fill_categorical s s' :
  no_missing s -> fill_categorical_col s = Ok s' -> no_missing s'.
Proof.
  destruct s as [xs|xs|xs]; simpl; try (intros ? [= <-]; assumption).
  intros _ H. bind_inv H. injection H as <-.
  unfold no_missing; simpl. rewrite Forall_isSome_map.
  apply fillna_Some_full.
Qed.

End ColumnFacts.

(** ** The stages of a successful run *)

Section CleanFacts.
Import Frame Spec SelectFacts FrameFacts ColumnFacts.

Variable fl : Arith.
Variable parse_str : list (option string) -> string -> option Z.
Variable parse_num : Q -> option Z.

Local Abbreviation to_datetime := (Script.to_datetime parse_str parse_num).
Local Abbreviation convert_date := (Script.convert_date parse_str parse_num).
Local Abbreviation imputed := Script.imputed.
Local Abbreviation cleaned_df := (Script.cleaned_df parse_str parse_num).
Local Abbreviation deduplicated := (Script.deduplicated parse_str parse_num).
Local Abbreviation clean := (Script.clean fl parse_str parse_num).

Lemma convert_date_Ok df df' :
  convert_date df = Ok df' ->
  exists d, lookup date df = Some d /\ df' = setitem date (to_datetime d) df.
Proof.
  unfold Script.convert_date. intros H.
  bind_inv H. apply getitem_Ok in Ha. injection H as <-. eauto.
Qed.

Lemma imputed_Ok raw df2 :
  imputed raw = Ok df2 ->
  exists df1,
    dropna_required (rename_value (normalize_columns raw)) = Ok df1 /\
    fill_categorical (fill_numeric df1) = Ok df2.
Proof. unfold Script.imputed. intros H. bind_inv H. eauto. Qed.

Lemma deduplicated_Ok raw dd :
  deduplicated raw = Ok dd ->
  exists df2 df3 df4 dv,
    imputed raw = Ok df2 /\ convert_date df2 = Ok df3 /\
    priority_column df3 = Ok df4 /\ select_valid df4 = Ok dv /\
    dd = drop_duplicates dv.
Proof.
  unfold Script.deduplicated, Script.cleaned_df. intros H.
  bind_inv H. bind_inv Ha. bind_inv Ha. bind_inv H. injection H as <-.
  eauto 10.
Qed.

Lemma clean_Ok raw out :
  clean raw = Ok out ->
  exists dd, deduplicated raw = Ok dd /\ outlier_filter fl dd = Ok out.
Proof. unfold Script.clean. intros H. bind_inv H. eauto. Qed.

Lemma as_numbers_take m s xs :
  as_numbers s = Ok xs -> as_numbers (take m s) = Ok (select m xs).
Proof.
  destruct s as [ys|ys|ys]; simpl; try discriminate; intros [= <-]; auto.
  now rewrite select_map.
Qed.

Lemma sales_values_Ok df xs :
  sales_values df = Ok xs ->
  exists s, lookup total_sales_value df = Some s /\ as_numbers s = Ok xs.
Proof.
  unfold sales_values. intros H. bind_inv H. apply getitem_Ok in Ha. eauto.
Qed.

Lemma sales_values_intro df s xs :
  lookup total_sales_value df = Some s -> as_numbers s = Ok xs ->
  sales_values df = Ok xs.
Proof. unfold sales_values, getitem. intros -> H. exact H. Qed.

Lemma sales_values_loc m df xs :
  sales_values df = Ok xs -> sales_values (loc m df) = Ok (select m xs).
Proof.
  intros H. apply sales_values_Ok in H. destruct H as (s & Hl & Hs).
  apply sales_values_intro with (s := take m s).
  - now rewrite lookup_loc, Hl.
  - now apply as_numbers_take.
Qed.

(** C1. Every row of the cleaned table has its [total_sales_value] within
    [Q1 - 1.5*IQR, Q3 + 1.5*IQR]: it passes both comparisons of lines 128
    and 129, [>= lower_bound] and [<= upper_bound], where Q1 and Q3 are the
    quartiles of [total_sales_value] over the table as it stands after
    imputation, the priority filter and de-duplication, and IQR = Q3 - Q1.
    Quartiles, bounds and comparisons are those of the run's arithmetic,
    whichever it is.  The values of the cleaned table are exactly the values
    of that table which pass. *)
Theorem cleaned_values_within_bounds raw out :
  clean raw = Ok out ->
  exists dd xs ys,
    deduplicated raw = Ok dd /\
    sales_values dd = Ok xs /\
    sales_values out = Ok ys /\
    ys = filter (in_bounds fl xs) xs /\
    let Q1 := quartile fl 1 xs in
    let Q3 := quartile fl 3 xs in
    let IQR := fsub fl Q3 Q1 in
    Forall (fun y => exists v,
                y = Some v /\
                ge fl v (fsub fl Q1 (fmul fl (literal fl (3 # 2)) IQR)) = true /\
                le fl v (fadd fl Q3 (fmul fl (literal fl (3 # 2)) IQR)) = true)
           ys.
Proof.
  intros H. apply clean_Ok in H. destruct H as (dd & Hdd & Hout).
  apply outlier_filter_Ok in Hout. destruct Hout as (s & xs & Hl & Hs & ->).
  pose proof (sales_values_intro _ _ _ Hl Hs) as Hxs.
  exists dd, xs, (select (map (in_bounds fl xs) xs) xs).
  split; [exact Hdd|]. split; [exact Hxs|].
  split; [now apply sales_values_loc|].
  rewrite select_pred. split; [reflexivity|].
  cbv zeta. apply Forall_forall. intros y Hy.
  apply filter_In in Hy. destruct Hy as [_ Hy].
  destruct y as [v|]; [|discriminate].
  unfold in_bounds, lower_bound, upper_bound in Hy.
  apply andb_prop in Hy. destruct Hy as [Hlo Hhi].
  exists v. auto.
Qed.

(** *** No nulls *)

Lemma select_and_l (a b : list bool) :
  Forall (fun x => x = true)
    (select (map (fun p => andb (fst p) (snd p)) (combine a b)) a).
Proof.
  revert b. induction a as [|x a IH]; intros [|y b]; simpl; auto.
  destruct x, y; simpl; auto.
Qed.

Lemma select_and_r (a b : list bool) :
  Forall (fun x => x = true)
    (select (map (fun p => andb (fst p) (snd p)) (combine a b)) b).
Proof.
  revert b. induction a as [|x a IH]; intros [|y b]; simpl; auto.
  destruct x, y; simpl; auto.
Qed.

Lemma dropna_required_no_missing df df1 :
  dropna_required df = Ok df1 ->
  has_col no_missing sales_person df1 /\
  has_col no_missing total_sales_value df1.
Proof.
  intros H. apply dropna_required_Ok in H.
  destruct H as (sp & tsv & Hsp & Htsv & ->).
  split; eexists; (split; [rewrite lookup_loc; (rewrite Hsp || rewrite Htsv);
                           reflexivity|]);
    unfold no_missing; rewrite notna_take;
    [apply select_and_l | apply select_and_r].
Qed.

Lemma has_col_imputation (P : Series -> Prop) l df1 df2 :
  (forall s, P s -> P (fill_numeric_col s)) ->
  (forall s s', P s -> fill_categorical_col s = Ok s' -> P s') ->
  fill_categorical (fill_numeric df1) = Ok df2 ->
  has_col P l df1 -> has_col P l df2.
Proof.
  intros Hn Hc H Hl.
  eapply has_col_fill_categorical; eauto using has_col_fill_numeric.
Qed.

(** From the date conversion on, a column other than the two priority
    columns is only cut down to the rows that stay. *)
Lemma has_col_after_date (P : Series -> Prop) l df3 df4 dv out :
  take_closed P ->
  l <> priority -> l <> priority_numeric ->
  priority_column df3 = Ok df4 ->
  select_valid df4 = Ok dv -> outlier_filter fl (drop_duplicates dv) = Ok out ->
  has_col P l df3 -> has_col P l out.
Proof.
  intros HP Hp Hpn H4 Hv Ho Hl.
  apply priority_column_Ok in H4. destruct H4 as (ps & _ & ->).
  apply select_valid_Ok in Hv. destruct Hv as (p & _ & ->).
  apply outlier_filter_Ok in Ho. destruct Ho as (s & xs & _ & _ & ->).
  unfold drop_duplicates.
  apply has_col_loc; auto. apply has_col_loc; auto.
  apply has_col_setitem_other; auto.
  apply has_col_loc; auto.
  apply has_col_setitem_other; auto.
Qed.

(** So does, from the imputations on, a column other than the date. *)
Lemma has_col_downstream (P : Series -> Prop) l df2 df3 df4 dv out :
  take_closed P ->
  l <> date -> l <> priority -> l <> priority_numeric ->
  convert_date df2 = Ok df3 -> priority_column df3 = Ok df4 ->
  select_valid df4 = Ok dv -> outlier_filter fl (drop_duplicates dv) = Ok out ->
  has_col P l df2 -> has_col P l out.
Proof.
  intros HP Hd Hp Hpn H3 H4 Hv Ho Hl.
  apply (has_col_after_date P l df3 df4 dv out); auto.
  apply convert_date_Ok in H3. destruct H3 as (d & _ & ->).
  now apply has_col_setitem_other.
Qed.

Lemma in_ordinal_set_take : take_closed in_ordinal_set.
Proof.
  intros m s (xs & -> & H). exists (select m xs). split; auto.
  now apply select_Forall.
Qed.

Lemma ordinal_numbers_take : take_closed ordinal_numbers.
Proof.
  intros m s (xs & -> & H). exists (select m xs). split; auto.
  now apply select_Forall.
Qed.

Lemma isin_keys_in_ordinal_set p : in_ordinal_set (take (isin_keys p) p) \/
                                    (forall xs, p <> Object xs).
Proof.
  destruct p as [xs|xs|xs]; [right; discriminate | left | right; discriminate].
  exists (select (isin_keys (Object xs)) xs). split; auto.
  unfold isin_keys. rewrite select_pred. apply Forall_forall. intros x Hx.
  apply filter_In in Hx. destruct Hx as [_ Hx].
  destruct x as [v|]; try discriminate. exists v. split; auto.
  apply existsb_exists in Hx. destruct Hx as (k & Hk & E).
  apply String.eqb_eq in E. now subst.
Qed.

Lemma map_get_priority v :
  In v priority_keys ->
  exists k, map_get v priority_map = Some k /\ (1 <= k <= 4)%Z.
Proof.
  simpl. intros [<-|[<-|[<-|[<-|[]]]]]; simpl; eexists; split; eauto; lia.
Qed.

Lemma map_priority_ordinal p :
  in_ordinal_set p -> ordinal_numbers (map_priority p).
Proof.
  intros (xs & -> & H). unfold map_priority. eexists. split; [reflexivity|].
  rewrite Forall_map. eapply Forall_impl; [|exact H].
  intros x (v & -> & Hv). cbv beta iota.
  destruct (map_get_priority v Hv) as (k & -> & Hk).
  simpl. eauto.
Qed.

Lemma map_priority_take m p :
  map_priority (take m p) = take m (map_priority p).
Proof. destruct p; simpl; now rewrite select_map. Qed.

Lemma priority_pair_loc m df : priority_pair df -> priority_pair (loc m df).
Proof.
  intros (xs & Hp & Hk & Hn). exists (select m xs).
  rewrite !lookup_loc, Hp, Hn. repeat split; auto using select_Forall.
  simpl. now rewrite select_map.
Qed.

Lemma select_valid_priority_pair df4 dv :
  select_valid df4 = Ok dv ->
  has_col (fun s => exists xs, s = Object xs) priority df4 ->
  priority_pair dv.
Proof.
  intros H (p0 & Hp0 & xs & ->).
  apply select_valid_Ok in H. destruct H as (p & Hp & ->).
  rewrite Hp0 in Hp. injection Hp as <-.
  destruct (isin_keys_in_ordinal_set (Object xs)) as [Hin|Hno];
    [|exfalso; eapply Hno; reflexivity].
  destruct Hin as (ys & Hys & Hk). exists ys. repeat split; auto.
  - rewrite lookup_setitem_other by discriminate.
    rewrite lookup_loc, Hp0. simpl. now rewrite <- Hys.
  - rewrite lookup_setitem_same. now rewrite Hys.
Qed.

Lemma clean_required_no_missing raw out :
  clean raw = Ok out ->
  has_col no_missing sales_person out /\
  has_col no_missing total_sales_value out.
Proof.
  intros H. apply clean_Ok in H. destruct H as (dd & Hdd & Hout).
  apply deduplicated_Ok in Hdd.
  destruct Hdd as (df2 & df3 & df4 & dv & H2 & H3 & H4 & Hv & ->).
  apply imputed_Ok in H2. destruct H2 as (df1 & H1 & H2).
  destruct (dropna_required_no_missing _ _ H1) as [Hsp Htsv].
  assert (Hkeep : forall l, l <> date -> l <> priority -> l <> priority_numeric ->
                            has_col no_missing l df1 -> has_col no_missing l out).
  { intros l Hd Hp Hn Hl.
    eapply has_col_downstream; eauto using no_missing_take.
    eapply has_col_imputation; eauto using no_missing_fill_numeric,
      no_missing_fill_categorical. }
  split; apply Hkeep; auto; discriminate.
Qed.

Lemma clean_priority_pair raw out : clean raw = Ok out -> priority_pair out.
Proof.
  intros H. apply clean_Ok in H. destruct H as (dd & Hdd & Hout).
  apply deduplicated_Ok in Hdd.
  destruct Hdd as (df2 & df3 & df4 & dv & H2 & H3 & H4 & Hv & ->).
  assert (Hobj : has_col (fun s => exists xs, s = Object xs) priority df4).
  { apply priority_column_Ok in H4. destruct H4 as (ps & _ & ->).
    apply has_col_setitem_same. eauto. }
  apply outlier_filter_Ok in Hout. destruct Hout as (s & xs & _ & _ & ->).
  unfold drop_duplicates. do 2 apply priority_pair_loc.
  eapply select_valid_priority_pair; eauto.
Qed.

Lemma in_ordinal_set_no_missing s : in_ordinal_set s -> no_missing s.
Proof.
  intros (ys & -> & Hys). unfold no_missing; simpl. rewrite Forall_map.
  eapply Forall_impl; [|exact Hys]. simpl. now intros x (v & -> & _).
Qed.

Lemma ordinal_numbers_no_missing s : ordinal_numbers s -> no_missing s.
Proof.
  intros (ys & -> & Hys). unfold no_missing; simpl. rewrite Forall_map.
  eapply Forall_impl; [|exact Hys]. simpl. now intros x (v & -> & _).
Qed.

(** C3. Every row of the cleaned table has a [sales_person], a
    [total_sales_value], a [priority] drawn from the ordinal set and a
    [priority_numeric], none of them missing. *)
Theorem cleaned_has_no_nulls raw out :
  clean raw = Ok out ->
  has_col no_missing sales_person out /\
  has_col no_missing total_sales_value out /\
  has_col (fun s => no_missing s /\ in_ordinal_set s) priority out /\
  has_col (fun s => no_missing s /\ ordinal_numbers s) priority_numeric out.
Proof.
  intros H.
  destruct (clean_required_no_missing _ _ H) as [Hsp Htsv].
  destruct (clean_priority_pair _ _ H) as (xs & Hp & Hk & Hn).
  assert (Hord : in_ordinal_set (Object xs)) by (exists xs; auto).
  repeat split; auto.
  - exists (Object xs). auto using in_ordinal_set_no_missing.
  - exists (map_priority (Object xs)).
    pose proof (map_priority_ordinal _ Hord).
    auto using ordinal_numbers_no_missing.
Qed.

End CleanFacts.

(** The ledger with one far value, in exact arithmetic: the bounds are -5
    and 15, 100 is cut, the other six stay. *)
Lemma cleaned_values_within_bounds_witness :
  Examples.clean (Examples.ledger [1; 2; 3; 4; 5; 10; 100]%Z)
  = Ok (Examples.ledger_clean [1; 2; 3; 4; 5; 10]%Z) /\
  exists dd xs ys,
    Script.deduplicated IsoDate.parse_str IsoDate.parse_num
      (Examples.ledger [1; 2; 3; 4; 5; 10; 100]%Z) = Ok dd /\
    Spec.sales_values dd = Ok xs /\
    Spec.sales_values (Examples.ledger_clean [1; 2; 3; 4; 5; 10]%Z) = Ok ys /\
    ys = filter (in_bounds exact xs) xs /\
    let Q1 := quartile exact 1 xs in
    let Q3 := quartile exact 3 xs in
    let IQR := fsub exact Q3 Q1 in
    Forall (fun y => exists v,
                y = Some v /\
                ge exact v (fsub exact Q1 (fmul exact (literal exact (3 # 2)) IQR))
                = true /\
                le exact v (fadd exact Q3 (fmul exact (literal exact (3 # 2)) IQR))
                = true)
           ys.
Proof.
  split; [vm_compute; reflexivity|].
  apply (cleaned_values_within_bounds exact IsoDate.parse_str
           IsoDate.parse_num).
  vm_compute; reflexivity.
Defined.

Lemma cleaned_has_no_nulls_witness :
  Examples.clean (Examples.ledger [1; 2; 3; 4; 5; 10; 100]%Z)
  = Ok (Examples.ledger_clean [1; 2; 3; 4; 5; 10]%Z) /\
  Spec.has_col Spec.no_missing sales_person
    (Examples.ledger_clean [1; 2; 3; 4; 5; 10]%Z).
Proof.
  split; [vm_compute; reflexivity|].
  apply (cleaned_has_no_nulls exact IsoDate.parse_str IsoDate.parse_num
           (Examples.ledger [1; 2; 3; 4; 5; 10; 100]%Z)).
  vm_compute; reflexivity.
Defined.

(** ** Priorities with white space in front *)

(** C2. A priority that is a key up to case and surrounding white space
    should be kept and mapped; [" low"] is [Low] in that sense, but
    [capitalize] runs before [strip]: the blank is the first character, the
    [l] stays small, and the row is dropped like [banana].  Of the four rows
    of [picky] the script keeps Bob ([HIGH ] with a trailing blank, 3) and
    Dee ([lOw], 1), not Ann. *)
Theorem leading_space_priority_dropped :
  Spec.matches_key " low" "Low" = true /\
  normalize_priority " low" = "low" /\
  existsb (String.eqb (normalize_priority " low")) priority_keys = false /\
  Examples.clean Examples.picky
  = Ok [("sales_person", Object [Some "Bob"; Some "Dee"]);
        ("total_sales_value", Numeric [Examples.num 110; Examples.num 105]);
        ("priority", Object [Some "High"; Some "Low"]);
        ("date", Datetime [Some 20240302%Z; Some 20240304%Z]);
        ("priority_numeric", Numeric [Examples.num 3; Examples.num 1])].
Proof. repeat split; vm_compute; reflexivity. Qed.

(** What does hold: a key of the table written in any letter case, with
    nothing around it, is read as that key. *)
Lemma upper_char_initial c d :
  In d ["L"; "M"; "H"; "C"]%char ->
  PyStr.lower_char c = PyStr.lower_char d -> PyStr.upper_char c = d.
Proof.
  intros [<-|[<-|[<-|[<-|[]]]]];
    destruct c as [[] [] [] [] [] [] [] []]; vm_compute;
    intros H; try reflexivity; discriminate H.
Qed.

Lemma normalize_priority_any_case v k :
  In k priority_keys -> PyStr.lower v = PyStr.lower k ->
  normalize_priority v = k.
Proof.
  unfold normalize_priority.
  intros Hk H. destruct v as [|c v]; simpl in Hk, H.
  - destruct Hk as [<-|[<-|[<-|[<-|[]]]]]; discriminate H.
  - destruct Hk as [<-|[<-|[<-|[<-|[]]]]]; simpl in H;
      injection H as Hc Hv; unfold PyStr.capitalize; rewrite Hv;
      rewrite (upper_char_initial c _ (or_introl eq_refl) Hc)
      || rewrite (upper_char_initial c _ (or_intror (or_introl eq_refl)) Hc)
      || rewrite (upper_char_initial c _
                    (or_intror (or_intror (or_introl eq_refl))) Hc)
      || rewrite (upper_char_initial c _
                    (or_intror (or_intror (or_intror (or_introl eq_refl)))) Hc);
      reflexivity.
Qed.

(** ** A categorical column left without a value *)

(** C6. Value-level defects should never raise; but when the rows that
    carried the values of an object column have been dropped for want of a
    salesperson, [mode()] is empty and [mode()[0]] raises [KeyError]. *)
Theorem all_missing_category_raises :
  Examples.clean Examples.regional = Raise (KeyError (Pos 0)).
Proof. vm_compute; reflexivity. Qed.

(** ** The scenario of three rows *)

(** The claim as written: two rows at the end.  The script ends with one. *)
Lemma scenario_not_two_rows :
  ~ exists out,
      Examples.clean Examples.scenario = Ok out /\ Frame.nrows out = 2%nat.
Proof.
  intros (out & H & Hn). vm_compute in H. injection H as <-.
  vm_compute in Hn. discriminate.
Qed.

(** C7 (amended). On the scenario, Bob's row, whose [total_sales_value] is
    missing, is dropped by the required-field rule before any imputation
    (nothing is left to impute); the two equal rows of Alice are reduced to
    the first; the cleaned table has exactly one row. *)
Theorem scenario_one_row
    (parse_str : list (option string) -> string -> option Z)
    (parse_num : Q -> option Z) :
  exists df1 df2 out,
    dropna_required (rename_value (normalize_columns Examples.scenario)) = Ok df1 /\
    Frame.lookup sales_person df1 = Some (Object [Some "Alice"; Some "Alice"]) /\
    Frame.lookup total_sales_value df1
      = Some (Numeric [Examples.num 100; Examples.num 100]) /\
    Script.imputed Examples.scenario = Ok df2 /\ df2 = df1 /\
    Script.clean exact parse_str parse_num Examples.scenario = Ok out /\
    Frame.lookup sales_person out = Some (Object [Some "Alice"]) /\
    Frame.lookup total_sales_value out = Some (Numeric [Examples.num 100]) /\
    Frame.nrows out = 1%nat.
Proof.
  pose (df1 := [("sales_person", Object [Some "Alice"; Some "Alice"]);
                ("total_sales_value",
                 Numeric [Examples.num 100; Examples.num 100]);
                ("priority", Object [Some "Low"; Some "Low"]);
                ("date", Object [Some "2024-01-01"; Some "2024-01-01"])]).
  pose (d := parse_str [Some "2024-01-01"; Some "2024-01-01"] "2024-01-01").
  pose (r := [Str "Alice"; Num (inject_Z 100); Str "Low";
              Frame.of_option Time d; Num (inject_Z 1)]).
  pose (dv := [("sales_person", Object [Some "Alice"; Some "Alice"]);
               ("total_sales_value",
                Numeric [Examples.num 100; Examples.num 100]);
               ("priority", Object [Some "Low"; Some "Low"]);
               ("date", Datetime [d; d]);
               ("priority_numeric",
                Numeric [Examples.num 1; Examples.num 1])]).
  exists df1, df1,
    [("sales_person", Object [Some "Alice"]);
     ("total_sales_value", Numeric [Examples.num 100]);
     ("priority", Object [Some "Low"]);
     ("date", Datetime [d]);
     ("priority_numeric", Numeric [Examples.num 1])].
  assert (H1 : dropna_required
                 (rename_value (normalize_columns Examples.scenario)) = Ok df1)
    by (vm_compute; reflexivity).
  assert (Hi : Script.imputed Examples.scenario = Ok df1)
    by (vm_compute; reflexivity).
  assert (Hv : (df <- Script.cleaned_df parse_str parse_num Examples.scenario ;;
                select_valid df) = Ok dv)
    by (vm_compute; reflexivity).
  assert (Hdup : Frame.duplicated dv = [false; true]).
  { unfold Frame.duplicated. change (Frame.rows dv) with [r; r].
    cbn [Frame.duplicated_from existsb]. now rewrite FrameFacts.row_eqb_refl. }
  split; [exact H1|]. split; [reflexivity|]. split; [reflexivity|].
  split; [exact Hi|]. split; [reflexivity|].
  split; [|split; [reflexivity|split; reflexivity]].
  unfold Script.clean, Script.deduplicated.
  destruct (Script.cleaned_df parse_str parse_num Examples.scenario)
    as [df|e]; [|discriminate].
  cbn [bind] in Hv |- *. rewrite Hv. cbn [bind].
  unfold drop_duplicates. rewrite Hdup. vm_compute. reflexivity.
Qed.

(** ** Malformed input *)

(** The claim as written: a [SchemaError].  The script has no such class;
    on a file that has only its header row, [mode()[0]] raises a
    [KeyError]. *)
Lemma header_only_not_SchemaError :
  exists e,
    Examples.clean Examples.header_only = Raise e /\
    exc_name e <> "SchemaError".
Proof.
  exists (KeyError (Pos 0)). split; [vm_compute; reflexivity | discriminate].
Qed.

Module LengthFacts.
Import Frame Spec SelectFacts FrameFacts ColumnFacts.

Lemma length_fillna {A} (v : option A) (xs : list (option A)) :
  List.length (fillna v xs) = List.length xs.
Proof. destruct v; simpl; auto using length_map. Qed.

Lemma len_fill_numeric_col s : len (fill_numeric_col s) = len s.
Proof. destruct s; simpl; auto using length_fillna. Qed.

Lemma len_fill_categorical_col s s' :
  fill_categorical_col s = Ok s' -> len s' = len s.
Proof.
  destruct s as [xs|xs|xs]; simpl; try (intros [= <-]; reflexivity).
  intros H. bind_inv H. injection H as <-. simpl. apply length_map.
Qed.

Lemma len_to_datetime ps pn s : len (Script.to_datetime ps pn s) = len s.
Proof. destruct s; simpl; auto using length_map. Qed.

Lemma len_isin_keys p : List.length (isin_keys p) = len p.
Proof. destruct p; simpl; apply length_map. Qed.

Lemma len_map_priority p : len (map_priority p) = len p.
Proof. destruct p; simpl; apply length_map. Qed.

Lemma aligned_n_relabel (f : string * Series -> string) n df :
  aligned_n n df -> aligned_n n (map (fun c => (f c, snd c)) df).
Proof. unfold aligned_n. rewrite Forall_map. auto. Qed.

Lemma aligned_n_normalize n df :
  aligned_n n df -> aligned_n n (rename_value (normalize_columns df)).
Proof.
  intros H. unfold rename_value, normalize_columns.
  destruct (existsb _ _).
  - apply aligned_n_relabel
      with (f := fun c => if String.eqb (fst c) value_
                          then total_sales_value else fst c).
    now apply aligned_n_relabel with (f := fun c => clean_label (fst c)).
  - now apply aligned_n_relabel with (f := fun c => clean_label (fst c)).
Qed.

Lemma aligned_n_fill_numeric n df :
  aligned_n n df -> aligned_n n (fill_numeric df).
Proof.
  unfold aligned_n, fill_numeric. rewrite Forall_map. simpl.
  apply Forall_impl. intros c. now rewrite len_fill_numeric_col.
Qed.

Lemma aligned_n_fill_categorical n df df' :
  fill_categorical df = Ok df' -> aligned_n n df -> aligned_n n df'.
Proof.
  intros H. apply fill_categorical_Forall2 in H. unfold aligned_n.
  induction H as [|c c' df df' [_ Hc] H IH]; intros Ha; constructor;
    inversion Ha; subst; auto.
  apply len_fill_categorical_col in Hc. congruence.
Qed.

(** Row selection on a frame without rows. *)
Lemma aligned_0_loc m df : aligned_n 0 df -> aligned_n 0 (loc m df).
Proof.
  unfold aligned_n, loc. rewrite Forall_map. apply Forall_impl.
  intros c Hc. simpl. pose proof (len_take_le m (snd c)). lia.
Qed.

End LengthFacts.

Section Malformed.
Import Frame Spec SelectFacts FrameFacts ColumnFacts LengthFacts.

Variable fl : Arith.
Variable parse_str : list (option string) -> string -> option Z.
Variable parse_num : Q -> option Z.

Local Abbreviation cleaned_df := (Script.cleaned_df parse_str parse_num).
Local Abbreviation clean := (Script.clean fl parse_str parse_num).
Local Abbreviation script := (Script.script fl parse_str parse_num).

Lemma dropna_required_Raise df e :
  dropna_required df = Raise e -> exists k, e = KeyError k.
Proof.
  unfold dropna_required.
  destruct (lookup sales_person df), (lookup total_sales_value df);
    intros [= <-]; eauto.
Qed.

Lemma dropna_required_absent df :
  ~ In sales_person (columns df) \/ ~ In total_sales_value (columns df) ->
  exists k, dropna_required df = Raise (KeyError k).
Proof.
  unfold dropna_required. intros [H|H]; apply lookup_None in H; rewrite H.
  - destruct (lookup total_sales_value df); eauto.
  - destruct (lookup sales_person df); eauto.
Qed.

(** Without rows, the first object column stops the mode imputation; when
    there is none, nothing is imputed. *)
Lemma fill_categorical_no_rows df :
  aligned_n 0 df ->
  fill_categorical df = Raise (KeyError (Pos 0)) \/
  (fill_categorical df = Ok df /\
   Forall (fun c => forall xs, snd c <> Object xs) df).
Proof.
  induction 1 as [|[l s] df Hs H IH]; simpl.
  - right. split; auto.
  - simpl in Hs. destruct s as [xs|xs|xs]; simpl.
    + destruct IH as [->|[-> IH]]; simpl; [left; reflexivity|right].
      split; auto. constructor; auto. discriminate.
    + left. destruct xs; [reflexivity | discriminate].
    + destruct IH as [->|[-> IH]]; simpl; [left; reflexivity|right].
      split; auto. constructor; auto. discriminate.
Qed.

Lemma cleaned_df_no_rows raw :
  aligned_n 0 raw ->
  exists e, cleaned_df raw = Raise e /\ is_KeyError_or_AttributeError e.
Proof.
  intros Ha. apply aligned_n_normalize in Ha.
  unfold Script.cleaned_df, Script.imputed.
  destruct (dropna_required _) as [df1|e] eqn:H1; simpl.
  2:{ destruct (dropna_required_Raise _ _ H1) as (k & ->).
      eexists; split; [reflexivity | left; reflexivity]. }
  apply dropna_required_Ok in H1. destruct H1 as (sp & tsv & _ & _ & ->).
  match goal with
  | |- context [fill_numeric (loc ?m ?d)] =>
      pose proof (aligned_n_fill_numeric _ _ (aligned_0_loc m d Ha)) as H2
  end.
  destruct (fill_categorical_no_rows _ H2) as [->|[-> Hno]]; simpl.
  { eexists; split; [reflexivity | left; reflexivity]. }
  unfold Script.convert_date, getitem.
  destruct (lookup date _) as [d|]; simpl.
  2:{ eexists; split; [reflexivity | left; reflexivity]. }
  unfold priority_column, getitem.
  rewrite lookup_setitem_other by discriminate.
  destruct (lookup priority _) as [p|] eqn:Hp; simpl.
  2:{ eexists; split; [reflexivity | left; reflexivity]. }
  apply lookup_In in Hp. rewrite Forall_forall in Hno.
  specialize (Hno _ Hp). simpl in Hno.
  destruct p as [xs|xs|xs]; simpl.
  - eexists; split; [reflexivity | right; reflexivity].
  - exfalso. now apply (Hno xs).
  - eexists; split; [reflexivity | right; reflexivity].
Qed.

(** C5 (amended). On a table without rows, or without a [sales_person] or a
    [total_sales_value] column once the labels are normalised and [value_]
    renamed, the cleaning raises a [KeyError] or an [AttributeError] (there
    is no [SchemaError]); the script ends there, and whatever [analysis]
    follows the cleaning (statistics, correlation, performers) is not
    run. *)
Theorem malformed_input_raises {A} (analysis : DataFrame -> result A) raw :
  aligned_n 0 raw \/
  ~ In sales_person (columns (rename_value (normalize_columns raw))) \/
  ~ In total_sales_value (columns (rename_value (normalize_columns raw))) ->
  exists e,
    clean raw = Raise e /\
    script analysis raw = Raise e /\
    is_KeyError_or_AttributeError e.
Proof.
  intros H.
  assert (Hc : exists e, cleaned_df raw = Raise e /\
                         is_KeyError_or_AttributeError e).
  { destruct H as [H|H]; [now apply cleaned_df_no_rows|].
    destruct (dropna_required_absent _ H) as (k & Hk).
    exists (KeyError k). split; [|left; reflexivity].
    unfold Script.cleaned_df, Script.imputed. now rewrite Hk. }
  destruct Hc as (e & He & Hk). exists e.
  assert (Hclean : clean raw = Raise e).
  { unfold Script.clean, Script.deduplicated. now rewrite He. }
  split; [exact Hclean|]. split; [|exact Hk].
  unfold Script.script. now rewrite Hclean.
Qed.

End Malformed.

Lemma malformed_input_raises_witness :
  Spec.aligned_n 0 Examples.header_only /\
  exists e,
    Examples.clean Examples.header_only = Raise e /\
    Script.script exact IsoDate.parse_str IsoDate.parse_num
      (fun df => Ok (Frame.shape df)) Examples.header_only = Raise e /\
    Spec.is_KeyError_or_AttributeError e.
Proof.
  assert (H : Spec.aligned_n 0 Examples.header_only)
    by (repeat constructor).
  split; [exact H|].
  apply (malformed_input_raises exact IsoDate.parse_str IsoDate.parse_num
           (fun df => Ok (Frame.shape df)) Examples.header_only).
  left. exact H.
Defined.

(** ** The mode and its tie-break *)

Module ModeFacts.
Import Mode Spec.

Lemma compare_not_Gt_trans a :
  forall b c, String.compare a b <> Gt -> String.compare b c <> Gt ->
              String.compare a c <> Gt.
Proof.
  induction a as [|x a IH]; intros [|y b] [|z c]; simpl; try congruence.
  unfold Ascii.compare.
  destruct (N.compare_spec (N_of_ascii x) (N_of_ascii y)),
           (N.compare_spec (N_of_ascii y) (N_of_ascii z)),
           (N.compare_spec (N_of_ascii x) (N_of_ascii z));
    try congruence; try lia; eauto.
Qed.

Lemma leb_trans a b c :
  String.leb a b = true -> String.leb b c = true -> String.leb a c = true.
Proof.
  unfold String.leb. intros Hab Hbc.
  pose proof (compare_not_Gt_trans a b c) as H.
  destruct (String.compare a b), (String.compare b c), (String.compare a c);
    try discriminate Hab; try discriminate Hbc; auto;
    exfalso; apply H; try discriminate; reflexivity.
Qed.

Lemma leb_refl a : String.leb a a = true.
Proof. destruct (String.leb_total a a); auto. Qed.

Lemma insert_In v x l : In v (insert x l) <-> v = x \/ In v l.
Proof.
  induction l as [|y l IH]; simpl; [intuition|].
  destruct (String.eqb_spec x y) as [->|Hne]; simpl; [intuition|].
  destruct (String.leb x y); simpl; rewrite ?IH; intuition.
Qed.

Lemma sort_unique_In v l : In v (sort_unique l) <-> In v l.
Proof.
  induction l as [|x l IH]; simpl; [tauto|].
  rewrite insert_In, IH. intuition.
Qed.

Lemma insert_head_min x l : head_min l -> head_min (insert x l).
Proof.
  destruct l as [|y l]; simpl.
  - intros _ v [<-|[]]. apply leb_refl.
  - intros H. destruct (String.eqb_spec x y) as [->|Hne]; simpl; auto.
    destruct (String.leb x y) eqn:Hxy; simpl.
    + intros v [<-|Hv]; [apply leb_refl|].
      apply leb_trans with y; auto.
    + assert (Hyx : String.leb y x = true)
        by (destruct (String.leb_total x y); congruence).
      intros v [<-|Hv]; [apply leb_refl|].
      apply insert_In in Hv. destruct Hv as [->|Hv]; auto.
Qed.

Lemma sort_unique_head_min l : head_min (sort_unique l).
Proof.
  induction l as [|x l IH]; simpl; auto using insert_head_min.
Qed.

Lemma dropna_In {A} (v : A) xs : In v (Stats.dropna xs) <-> In (Some v) xs.
Proof.
  induction xs as [|[x|] xs IH]; simpl; [tauto| |].
  - rewrite IH. split; intros [H|H]; auto; left; congruence.
  - rewrite IH. split; [auto|]. intros [H|H]; [discriminate|auto].
Qed.

(** What [mode()[0]] is: a value of the column that no value outnumbers,
    and the first of them. *)
Lemma mode0_spec xs m :
  mode0 xs = Ok m ->
  In (Some m) xs /\
  count m (Stats.dropna xs) = max_count (Stats.dropna xs) /\
  forall v, In (Some v) xs ->
            count v (Stats.dropna xs) = max_count (Stats.dropna xs) ->
            String.leb m v = true.
Proof.
  unfold mode0, mode.
  set (l := Stats.dropna xs).
  set (p := fun v => Nat.eqb (count v l) (max_count l)).
  pose proof (sort_unique_head_min (filter p l)) as Hmin.
  destruct (sort_unique (filter p l)) as [|h t] eqn:E; [discriminate|].
  intros [= <-].
  assert (Hh : In h (filter p l)).
  { apply sort_unique_In. rewrite E. left; reflexivity. }
  apply filter_In in Hh. destruct Hh as [Hl Hp].
  split; [now apply dropna_In|].
  split; [now apply Nat.eqb_eq|].
  intros v Hv Hc. apply Hmin. rewrite <- E. apply sort_unique_In.
  apply filter_In. split; [now apply dropna_In|].
  now apply Nat.eqb_eq.
Qed.









End ModeFacts.

(** ** One run, one result *)

Section Determinism.
Import Frame Spec ColumnFacts.

Variable fl : Arith.
Variable parse_str : list (option string) -> string -> option Z.
Variable parse_num : Q -> option Z.

Local Abbreviation clean := (Script.clean fl parse_str parse_num).



End Determinism.


(** ** Imputation touches the missing entries only *)

Section Imputation.
Import Frame Spec SelectFacts FrameFacts ColumnFacts.

Variable fl : Arith.
Variable parse_str : list (option string) -> string -> option Z.
Variable parse_num : Q -> option Z.

Local Abbreviation to_datetime := (Script.to_datetime parse_str parse_num).
Local Abbreviation convert_date := (Script.convert_date parse_str parse_num).
Local Abbreviation clean := (Script.clean fl parse_str parse_num).

Lemma fillna_cells {A} (f : A -> cell) (v : option A) (xs : list (option A)) :
  (forall a, f a <> NaN) ->
  Forall2 (fun c c' => c <> NaN -> c' = c)
    (map (of_option f) xs) (map (of_option f) (fillna v xs)).
Proof.
  intros Hf. pose proof (fillna_Some v xs) as H.
  induction H as [|x y xs ys Hxy H IH]; simpl; constructor; auto.
  intros Hx. destruct x as [a|]; simpl in *; [|congruence].
  now rewrite Hxy.
Qed.

Lemma unchanged_refl s : unchanged_where_present s s.
Proof.
  split; auto. induction (cells s); constructor; auto.
Qed.

Lemma fill_col_unchanged s s' :
  fill_categorical_col (fill_numeric_col s) = Ok s' ->
  unchanged_where_present s s'.
Proof.
  destruct s as [xs|xs|xs]; simpl.
  - intros [= <-]. split; auto. simpl. apply fillna_cells. discriminate.
  - intros H. bind_inv H. injection H as <-. split; auto.
    apply (fillna_cells Str (Some a) xs). discriminate.
  - intros [= <-]. apply unchanged_refl.
Qed.

Lemma imputation_unchanged df1 :
  forall df2,
    fill_categorical (fill_numeric df1) = Ok df2 ->
    Forall2 (fun c c' => fst c' = fst c /\
                         unchanged_where_present (snd c) (snd c')) df1 df2.
Proof.
  induction df1 as [|[l s] df1 IH]; simpl; intros df2 H.
  - injection H as <-. constructor.
  - bind_inv H. bind_inv H. injection H as <-.
    constructor; auto. split; auto. now apply fill_col_unchanged.
Qed.

Lemma take_and_then m1 m2 s : take m2 (take m1 s) = take (and_then m1 m2) s.
Proof. destruct s; simpl; f_equal; apply select_and_then. Qed.

Lemma parsed_row_by_row (f : string -> option Z) (ys : list (option string)) :
  Forall (fun y => isSome y = true) ys ->
  Forall2 (fun y d => exists v, y = Some v /\ d = f v)
    ys (map (Script.bind_option f) ys).
Proof.
  induction 1 as [|[v|] ys Hy _ IH]; simpl; constructor; eauto.
  discriminate.
Qed.

(** C10. Between the required-field drop and the end of both imputations,
    every column keeps its label and dtype, and every entry that was present
    keeps its value.  So a missing date is filled with the modal string of
    the column before the dates are parsed.  The rows of the cleaned table
    are a selection [k] of the rows of the imputed table, the same in every
    column, and the date of each of them is the parse of that row's own
    string, present or imputed: it is missing only when this string does
    not parse. *)
Theorem imputation_keeps_present_values raw df1 df2 :
  dropna_required (rename_value (normalize_columns raw)) = Ok df1 ->
  fill_categorical (fill_numeric df1) = Ok df2 ->
  Forall2 (fun c c' => fst c' = fst c /\
                       unchanged_where_present (snd c) (snd c')) df1 df2 /\
  forall xs out,
    lookup date df1 = Some (Object xs) ->
    clean raw = Ok out ->
    exists m k ds,
      Mode.mode0 xs = Ok m /\
      lookup date df2 = Some (Object (fillna (Some m) xs)) /\
      (forall l s,
         l <> date -> l <> priority -> l <> priority_numeric ->
         lookup l df2 = Some s -> lookup l out = Some (take k s)) /\
      lookup date out = Some (Datetime ds) /\
      Forall2 (fun y d => exists v,
                   y = Some v /\ d = parse_str (fillna (Some m) xs) v)
        (select k (fillna (Some m) xs)) ds.
Proof.
  intros H1 H2. split; [now apply imputation_unchanged|].
  intros xs out Hd Hc.
  assert (Hd' : lookup date (fill_numeric df1) = Some (Object xs))
    by (rewrite lookup_fill_numeric, Hd; reflexivity).
  destruct (lookup_fill_categorical _ _ _ _ H2 Hd') as (s' & Hl2 & Hs').
  simpl in Hs'. unbind Hs' as m Hm. injection Hs' as <-.
  set (ys := fillna (Some m) xs) in *.
  apply clean_Ok in Hc. destruct Hc as (dd & Hdd & Hout).
  apply deduplicated_Ok in Hdd.
  destruct Hdd as (df2' & df3 & df4 & dv & Hi & H3 & H4 & Hv & ->).
  unfold Script.imputed in Hi. rewrite H1 in Hi. simpl in Hi.
  rewrite H2 in Hi. injection Hi as <-.
  apply convert_date_Ok in H3. destruct H3 as (d & Hd2 & ->).
  rewrite Hl2 in Hd2. injection Hd2 as <-.
  apply priority_column_Ok in H4. destruct H4 as (ps & _ & ->).
  apply select_valid_Ok in Hv. destruct Hv as (p & _ & ->).
  apply outlier_filter_Ok in Hout. destruct Hout as (s & zs & _ & _ & ->).
  unfold drop_duplicates.
  set (m1 := isin_keys p).
  set (df5 := setitem priority_numeric (map_priority (take m1 p))
                (loc m1 (setitem priority
                           (Object (map (option_map normalize_priority) ps))
                           (setitem date (to_datetime (Object ys)) df2)))).
  set (m2 := map negb (duplicated df5)).
  set (m3 := map (in_bounds fl zs) zs).
  set (k := and_then (and_then m1 m2) m3).
  exists m, k, (select k (map (Script.bind_option (parse_str ys)) ys)).
  split; [exact Hm|]. split; [exact Hl2|]. split; [|split].
  - intros l t Hld Hlp Hln Hl. unfold df5.
    rewrite lookup_loc, lookup_loc, lookup_setitem_other, lookup_loc,
      !lookup_setitem_other, Hl by congruence.
    simpl. now rewrite (take_and_then m1), take_and_then.
  - unfold df5.
    rewrite lookup_loc, lookup_loc, lookup_setitem_other, lookup_loc,
      lookup_setitem_other, lookup_setitem_same by discriminate.
    simpl. now rewrite (select_and_then m1), select_and_then.
  - rewrite select_map. apply parsed_row_by_row.
    apply select_Forall. apply fillna_Some_full.
Qed.

End Imputation.

(** On [dated]: Bob's date is filled with the modal [2024-03-01] and
    parses; Cid's [soon] does not parse and is the one missing date. *)
Lemma imputation_keeps_present_values_witness :
  dropna_required (rename_value (normalize_columns Examples.dated))
  = Ok Examples.dated_required /\
  fill_categorical (fill_numeric Examples.dated_required)
  = Ok Examples.dated_imputed /\
  Forall2 (fun c c' => fst c' = fst c /\
                       Spec.unchanged_where_present (snd c) (snd c'))
    Examples.dated_required Examples.dated_imputed /\
  exists out k,
    Examples.clean Examples.dated = Ok out /\
    Frame.lookup "sales_person" out
    = Some (Frame.take k (Object [Some "Ann"; Some "Bob"; Some "Cid";
                                  Some "Dee"])) /\
    Frame.lookup date out
    = Some (Datetime [Some 20240301%Z; Some 20240301%Z; None; Some 20240301%Z]) /\
    Forall2 (fun y d => exists v,
                 y = Some v /\
                 d = IsoDate.parse_str
                       [Some "2024-03-01"; Some "2024-03-01"; Some "soon";
                        Some "2024-03-01"] v)
      (Frame.select k [Some "2024-03-01"; Some "2024-03-01"; Some "soon";
                       Some "2024-03-01"])
      [Some 20240301%Z; Some 20240301%Z; None; Some 20240301%Z].
Proof.
  assert (H1 : dropna_required (rename_value (normalize_columns Examples.dated))
               = Ok Examples.dated_required) by (vm_compute; reflexivity).
  assert (H2 : fill_categorical (fill_numeric Examples.dated_required)
               = Ok Examples.dated_imputed) by (vm_compute; reflexivity).
  split; [exact H1|]. split; [exact H2|].
  destruct (imputation_keeps_present_values exact IsoDate.parse_str
              IsoDate.parse_num Examples.dated _ _ H1 H2) as [Hframe Hdate].
  split; [exact Hframe|].
  destruct (Examples.clean Examples.dated) as [out|] eqn:Ho;
    [|vm_compute in Ho; discriminate].
  destruct (Hdate [Some "2024-03-01"; None; Some "soon"; Some "2024-03-01"]
              out eq_refl Ho) as (m & k & ds & Hm & _ & Hrows & Hd & Hds).
  vm_compute in Hm. injection Hm as <-.
  exists out, k. split; [reflexivity|].
  split; [apply Hrows; [discriminate..|reflexivity]|].
  assert (E : ds = [Some 20240301%Z; Some 20240301%Z; None; Some 20240301%Z]).
  { vm_compute in Ho. injection Ho as <-. cbn in Hd. now injection Hd as <-. }
  subst ds. split; [exact Hd | exact Hds].
Defined.

(** ** Alignment and row counts through the stages *)

Module AlignFacts.
Import Frame Spec SelectFacts FrameFacts ColumnFacts LengthFacts.

Lemma count_true_le m : (count_true m <= List.length m)%nat.
Proof. unfold count_true. apply filter_length_le. Qed.

Lemma length_zip_cons {A} (hs : list A) (ts : list (list A)) :
  List.length (zip_cons hs ts) = Nat.min (List.length hs) (List.length ts).
Proof.
  revert ts. induction hs as [|h hs IH]; intros [|t ts]; simpl; auto.
Qed.

Lemma length_rows_n n df : aligned_n n df -> List.length (rows_n n df) = n.
Proof.
  induction 1 as [|[l s] df Hs H IH]; simpl.
  - apply repeat_length.
  - rewrite length_zip_cons, IH, <- len_cells. simpl in Hs. lia.
Qed.

Lemma length_duplicated_from seen rs :
  List.length (duplicated_from seen rs) = List.length rs.
Proof.
  revert seen. induction rs as [|r rs IH]; intros seen; simpl; auto.
Qed.

Lemma length_duplicated n df :
  aligned_n n df -> df <> [] -> List.length (duplicated df) = n.
Proof.
  intros H Hne. unfold duplicated, rows.
  rewrite length_duplicated_from, (aligned_n_nrows n df H Hne).
  now apply length_rows_n.
Qed.

Lemma length_required_mask n sp tsv :
  len sp = n -> len tsv = n ->
  List.length (map (fun b : bool * bool => andb (fst b) (snd b))
                 (combine (notna sp) (notna tsv))) = n.
Proof.
  intros Hsp Htsv. rewrite length_map, length_combine, !len_notna. lia.
Qed.

Lemma length_as_numbers s xs : as_numbers s = Ok xs -> List.length xs = len s.
Proof.
  destruct s; simpl; try discriminate; intros [= <-]; auto using length_map.
Qed.

Lemma aligned_n_loc_le n m df :
  aligned_n n df -> List.length m = n ->
  exists n', (n' <= n)%nat /\ aligned_n n' (loc m df).
Proof.
  intros Ha Hm. exists (count_true m). split.
  - rewrite <- Hm. apply count_true_le.
  - now apply aligned_n_loc with n.
Qed.

Lemma aligned_n_dropna_required n df df1 :
  aligned_n n df -> dropna_required df = Ok df1 ->
  exists n', (n' <= n)%nat /\ aligned_n n' df1.
Proof.
  intros Ha H. apply dropna_required_Ok in H.
  destruct H as (sp & tsv & Hsp & Htsv & ->).
  pose proof (length_required_mask n sp tsv
                (aligned_n_lookup _ _ _ _ Ha Hsp)
                (aligned_n_lookup _ _ _ _ Ha Htsv)) as Hm.
  now apply aligned_n_loc_le.
Qed.

Lemma aligned_n_convert_date ps pn n df df' :
  aligned_n n df -> Script.convert_date ps pn df = Ok df' -> aligned_n n df'.
Proof.
  intros Ha H. unfold Script.convert_date in H.
  bind_inv H. apply getitem_Ok in Ha0. injection H as <-.
  apply aligned_n_setitem; auto.
  rewrite len_to_datetime. eapply aligned_n_lookup; eauto.
Qed.

Lemma aligned_n_priority_column n df df' :
  aligned_n n df -> priority_column df = Ok df' -> aligned_n n df'.
Proof.
  intros Ha H. apply priority_column_Ok in H. destruct H as (xs & Hp & ->).
  apply aligned_n_setitem; auto.
  apply (aligned_n_lookup _ _ _ _ Ha) in Hp. simpl in *.
  now rewrite length_map.
Qed.

Lemma aligned_n_select_valid n df dv :
  aligned_n n df -> select_valid df = Ok dv ->
  exists n', (n' <= n)%nat /\ aligned_n n' dv.
Proof.
  intros Ha H. apply select_valid_Ok in H. destruct H as (p & Hp & ->).
  pose proof (aligned_n_lookup _ _ _ _ Ha Hp) as Hn.
  assert (Hm : List.length (isin_keys p) = n)
    by (now rewrite len_isin_keys).
  exists (count_true (isin_keys p)). split.
  - rewrite <- Hm. apply count_true_le.
  - apply aligned_n_setitem; [now apply aligned_n_loc with n|].
    rewrite len_map_priority. apply len_take. congruence.
Qed.

Lemma aligned_n_drop_duplicates n df :
  aligned_n n df ->
  exists n', (n' <= n)%nat /\ aligned_n n' (drop_duplicates df).
Proof.
  intros Ha. destruct df as [|c df].
  - exists n. split; [lia | constructor].
  - assert (Hm : List.length (map negb (duplicated (c :: df))) = n).
    { rewrite length_map. apply length_duplicated; auto. discriminate. }
    now apply aligned_n_loc_le.
Qed.

Lemma aligned_n_outlier_filter fl n df out :
  aligned_n n df -> outlier_filter fl df = Ok out ->
  exists n', (n' <= n)%nat /\ aligned_n n' out.
Proof.
  intros Ha H. apply outlier_filter_Ok in H.
  destruct H as (s & xs & Hs & Hxs & ->).
  assert (Hm : List.length (map (in_bounds fl xs) xs) = n).
  { rewrite length_map, (length_as_numbers _ _ Hxs).
    eapply aligned_n_lookup; eauto. }
  now apply aligned_n_loc_le.
Qed.

Lemma aligned_n_imputed n raw df2 :
  aligned_n n raw -> Script.imputed raw = Ok df2 ->
  exists n', (n' <= n)%nat /\ aligned_n n' df2.
Proof.
  intros Ha H. unfold Script.imputed in H. bind_inv H.
  apply aligned_n_normalize in Ha.
  destruct (aligned_n_dropna_required _ _ _ Ha Ha0) as (n' & Hle & Ha').
  exists n'. split; auto.
  eapply aligned_n_fill_categorical; eauto using aligned_n_fill_numeric.
Qed.

Lemma aligned_n_cleaned_df ps pn n raw df :
  aligned_n n raw -> Script.cleaned_df ps pn raw = Ok df ->
  exists n', (n' <= n)%nat /\ aligned_n n' df.
Proof.
  intros Ha H. unfold Script.cleaned_df in H. bind_inv H. bind_inv H.
  destruct (aligned_n_imputed _ _ _ Ha Ha0) as (n' & Hle & Ha').
  exists n'. split; auto.
  apply (aligned_n_priority_column n' a0 df); auto.
  now apply (aligned_n_convert_date ps pn n' a a0).
Qed.

Lemma aligned_n_deduplicated ps pn n raw dd :
  aligned_n n raw -> Script.deduplicated ps pn raw = Ok dd ->
  exists n', (n' <= n)%nat /\ aligned_n n' dd.
Proof.
  intros Ha H. unfold Script.deduplicated in H.
  unbind H as df Hdf. unbind H as dv Hdv. injection H as <-.
  destruct (aligned_n_cleaned_df _ _ _ _ _ Ha Hdf) as (n1 & Hle1 & Ha1).
  destruct (aligned_n_select_valid _ _ _ Ha1 Hdv) as (n2 & Hle2 & Ha2).
  destruct (aligned_n_drop_duplicates _ _ Ha2) as (n3 & Hle3 & Ha3).
  exists n3. split; auto. lia.
Qed.

Lemma aligned_n_clean fl ps pn n raw out :
  aligned_n n raw -> Script.clean fl ps pn raw = Ok out ->
  exists n', (n' <= n)%nat /\ aligned_n n' out.
Proof.
  intros Ha H. unfold Script.clean in H. unbind H as dd Hdd.
  destruct (aligned_n_deduplicated _ _ _ _ _ Ha Hdd) as (n1 & Hle1 & Ha1).
  destruct (aligned_n_outlier_filter _ _ _ _ Ha1 H) as (n2 & Hle2 & Ha2).
  exists n2. split; auto. lia.
Qed.

End AlignFacts.

(** ** What the script reports about the cleaning *)

(** The claim as written: the rows dropped for a missing salesperson or
    value are counted in what the script reports.  [audit_a] loses one row
    to that rule and [audit_b] two, yet everything the script prints about
    the raw table and about the cleaning, and the cleaned table itself, are
    the same for both: no reading of the output gives the count. *)
Lemma dropped_rows_not_reported :
  ~ exists count : Inspection -> Diagnostics -> DataFrame -> nat,
      forall raw d out,
        Script.diagnostics exact IsoDate.parse_str IsoDate.parse_num raw = Ok d ->
        Examples.clean raw = Ok out ->
        Spec.rows_dropped_required raw = Ok (count (inspect raw) d out).
Proof.
  intros (count & H).
  destruct (Script.diagnostics exact IsoDate.parse_str IsoDate.parse_num
              Examples.audit_a) as [d|] eqn:Hd; [|vm_compute in Hd; discriminate].
  destruct (Examples.clean Examples.audit_a) as [out|] eqn:Ho;
    [|vm_compute in Ho; discriminate].
  assert (Hd' : Script.diagnostics exact IsoDate.parse_str IsoDate.parse_num
                  Examples.audit_b = Ok d)
    by (rewrite <- Hd; vm_compute; reflexivity).
  assert (Ho' : Examples.clean Examples.audit_b = Ok out)
    by (rewrite <- Ho; vm_compute; reflexivity).
  assert (Hi : inspect Examples.audit_a = inspect Examples.audit_b)
    by (vm_compute; reflexivity).
  pose proof (H _ _ _ Hd Ho) as Ha. pose proof (H _ _ _ Hd' Ho') as Hb.
  rewrite Hi in Ha. rewrite <- Ha in Hb. vm_compute in Hb. discriminate.
Qed.

Section Report.
Import Frame Spec SelectFacts FrameFacts ColumnFacts LengthFacts AlignFacts.

Variable fl : Arith.
Variable parse_str : list (option string) -> string -> option Z.
Variable parse_num : Q -> option Z.

Local Abbreviation cleaned_df := (Script.cleaned_df parse_str parse_num).
Local Abbreviation clean := (Script.clean fl parse_str parse_num).
Local Abbreviation diagnostics := (Script.diagnostics fl parse_str parse_num).

Lemma columns_dropna_required df df1 :
  dropna_required df = Ok df1 -> columns df1 = columns df.
Proof.
  intros H. apply dropna_required_Ok in H.
  destruct H as (sp & tsv & _ & _ & ->). apply columns_loc.
Qed.

Lemma columns_imputed raw df2 :
  Script.imputed raw = Ok df2 ->
  columns df2 = columns (rename_value (normalize_columns raw)).
Proof.
  intros H. apply imputed_Ok in H. destruct H as (df1 & H1 & H2).
  rewrite (columns_fill_categorical _ _ H2), columns_fill_numeric.
  now apply columns_dropna_required.
Qed.

Lemma columns_convert_date df df' :
  Script.convert_date parse_str parse_num df = Ok df' -> columns df' = columns df.
Proof.
  intros H. apply convert_date_Ok in H. destruct H as (d & Hd & ->).
  apply columns_setitem_present. eapply lookup_Some_columns; eauto.
Qed.

Lemma columns_priority_column df df' :
  priority_column df = Ok df' -> columns df' = columns df.
Proof.
  intros H. apply priority_column_Ok in H. destruct H as (xs & Hp & ->).
  apply columns_setitem_present. eapply lookup_Some_columns; eauto.
Qed.

Lemma columns_cleaned_df raw df :
  cleaned_df raw = Ok df ->
  columns df = columns (rename_value (normalize_columns raw)).
Proof.
  unfold Script.cleaned_df. intros H. bind_inv H. bind_inv H.
  rewrite (columns_priority_column _ _ H), (columns_convert_date _ _ Ha0).
  now apply columns_imputed.
Qed.

(** [priority_numeric] is written over a column of that name, or added as
    the last column. *)
Lemma columns_setitem l s df :
  columns (setitem l s df) = columns df \/
  columns (setitem l s df) = columns df ++ [l].
Proof.
  destruct (in_dec string_dec l (columns df)) as [Hin|Hout].
  - left. now apply columns_setitem_present.
  - right. now apply columns_setitem_absent.
Qed.

Lemma columns_clean raw df out :
  cleaned_df raw = Ok df -> clean raw = Ok out ->
  columns out = columns df \/ columns out = columns df ++ [priority_numeric].
Proof.
  intros Hdf H. apply clean_Ok in H. destruct H as (dd & Hdd & Hout).
  unfold Script.deduplicated in Hdd. rewrite Hdf in Hdd. simpl in Hdd.
  bind_inv Hdd. injection Hdd as <-.
  apply select_valid_Ok in Ha. destruct Ha as (p & _ & ->).
  apply outlier_filter_Ok in Hout. destruct Hout as (s & xs & _ & _ & ->).
  unfold drop_duplicates. rewrite !columns_loc.
  destruct (columns_setitem priority_numeric
              (map_priority (take (isin_keys p) p)) (loc (isin_keys p) df))
    as [E|E]; rewrite E, columns_loc; auto.
Qed.

Lemma length_columns df : List.length (columns df) = List.length df.
Proof. apply length_map. Qed.

(** The labels of the cleaned table: those of the raw table, normalised and
    renamed, and [priority_numeric] after them unless it was one of them. *)
Lemma columns_clean_labels raw out :
  clean raw = Ok out ->
  (In priority_numeric (columns (rename_value (normalize_columns raw))) ->
   columns out = columns (rename_value (normalize_columns raw))) /\
  (~ In priority_numeric (columns (rename_value (normalize_columns raw))) ->
   columns out
   = columns (rename_value (normalize_columns raw)) ++ [priority_numeric]).
Proof.
  intros H. apply clean_Ok in H. destruct H as (dd & Hdd & Hout).
  unfold Script.deduplicated in Hdd. unbind Hdd as df Hdf.
  pose proof (columns_cleaned_df _ _ Hdf) as Hcols.
  unbind Hdd as dv Hdv. injection Hdd as <-.
  apply select_valid_Ok in Hdv. destruct Hdv as (p & _ & ->).
  apply outlier_filter_Ok in Hout. destruct Hout as (s & xs & _ & _ & ->).
  unfold drop_duplicates. rewrite !columns_loc. split; intros Hin.
  - rewrite columns_setitem_present; rewrite columns_loc; congruence.
  - rewrite columns_setitem_absent; rewrite columns_loc; congruence.
Qed.

Lemma diagnostics_clean raw out :
  clean raw = Ok out ->
  diagnostics raw
  = Ok {| cleaned_columns := columns (rename_value (normalize_columns raw));
          final_shape := shape out |}.
Proof.
  intros H. pose proof H as Hc.
  apply clean_Ok in H. destruct H as (dd & Hdd & _).
  unfold Script.deduplicated in Hdd. unbind Hdd as df Hdf.
  unfold Script.diagnostics. rewrite Hdf, Hc. cbn [bind].
  now rewrite (columns_cleaned_df _ _ Hdf).
Qed.

(** C8 (amended). On every input on which the cleaning succeeds, the
    script prints about the cleaning the normalised column labels and the
    shape of the cleaned table, and nothing else: another run that ends
    with the same labels and the same shape prints the same, whatever was
    dropped or imputed on the way.  The cleaned table has at most the rows
    of the raw table, and the columns of the raw table (normalised and
    renamed) followed by [priority_numeric] when the raw table had no such
    column. *)
Theorem diagnostics_report raw out :
  aligned raw ->
  clean raw = Ok out ->
  diagnostics raw
  = Ok {| cleaned_columns := columns (rename_value (normalize_columns raw));
          final_shape := (nrows out, List.length (columns out)) |} /\
  (nrows out <= nrows raw)%nat /\
  (In priority_numeric (columns (rename_value (normalize_columns raw))) ->
   columns out = columns (rename_value (normalize_columns raw))) /\
  (~ In priority_numeric (columns (rename_value (normalize_columns raw))) ->
   columns out
   = columns (rename_value (normalize_columns raw)) ++ [priority_numeric]) /\
  forall raw' out',
    clean raw' = Ok out' ->
    columns (rename_value (normalize_columns raw'))
    = columns (rename_value (normalize_columns raw)) ->
    shape out' = shape out ->
    diagnostics raw' = diagnostics raw.
Proof.
  intros Hal H.
  split; [|split; [|split; [|split]]].
  - rewrite (diagnostics_clean _ _ H). unfold shape.
    now rewrite length_columns.
  - destruct (aligned_n_clean _ _ _ _ _ _ (aligned_aligned_n _ Hal) H)
      as (n' & Hle & Hn').
    destruct out as [|c out]; [simpl; lia|].
    rewrite (aligned_n_nrows _ _ Hn') by discriminate. exact Hle.
  - apply (columns_clean_labels _ _ H).
  - apply (columns_clean_labels _ _ H).
  - intros raw' out' H' Hlabels Hshape.
    rewrite (diagnostics_clean _ _ H), (diagnostics_clean _ _ H').
    now rewrite Hlabels, Hshape.
Qed.

End Report.

(** The first audit table: seven rows read, five kept, and
    [priority_numeric] added to the four columns. *)
Lemma diagnostics_report_witness :
  Frame.aligned Examples.audit_a /\
  exists out,
    Examples.clean Examples.audit_a = Ok out /\
    Script.diagnostics exact IsoDate.parse_str IsoDate.parse_num
      Examples.audit_a
    = Ok {| cleaned_columns :=
              ["sales_person"; "total_sales_value"; "priority"; "date"];
            final_shape := (5, 5)%nat |} /\
    Frame.columns out
    = ["sales_person"; "total_sales_value"; "priority"; "date";
       "priority_numeric"].
Proof.
  assert (Ha : Frame.aligned Examples.audit_a) by (repeat constructor).
  destruct (Examples.clean Examples.audit_a) as [out|] eqn:Hc;
    [|vm_compute in Hc; discriminate].
  split; [exact Ha|]. exists out. split; [reflexivity|].
  destruct (diagnostics_report exact IsoDate.parse_str IsoDate.parse_num
              Examples.audit_a out Ha Hc) as (Hd & _ & _ & Hcols & _).
  split.
  - rewrite Hd. vm_compute in Hc. injection Hc as <-. reflexivity.
  - rewrite Hcols.
    + reflexivity.
    + vm_compute. intros H.
      repeat (destruct H as [H|H]; [discriminate H|]). exact H.
Defined.

(** ** Cleaning a cleaned table *)

(** The claim as written: cleaning the cleaned table changes nothing.  The
    ledger 1, 2, 3, 4, 5, 10, 100 loses 100 at the first cleaning (bounds
    -5 and 15); the quartiles of what is left give the bounds -1.5 and 8.5,
    and the second cleaning drops 10. *)
Lemma recleaning_drops_rows :
  exists c c' lo hi lo' hi',
    Examples.clean (Examples.ledger [1; 2; 3; 4; 5; 10; 100]%Z) = Ok c /\
    Examples.clean c = Ok c' /\ c' <> c /\
    Frame.nrows c = 6%nat /\ Frame.nrows c' = 5%nat /\
    iqr_bounds (map Examples.num [1; 2; 3; 4; 5; 10; 100]%Z) = Some (lo, hi) /\
    iqr_bounds (map Examples.num [1; 2; 3; 4; 5; 10]%Z) = Some (lo', hi') /\
    (lo == -5 /\ hi == 15 /\ lo' == - (3 # 2) /\ hi' == 17 # 2)%Q.
Proof.
  exists (Examples.ledger_clean [1; 2; 3; 4; 5; 10]%Z),
         (Examples.ledger_clean [1; 2; 3; 4; 5]%Z).
  do 4 eexists.
  split; [vm_compute; reflexivity|].
  split; [vm_compute; reflexivity|].
  split; [discriminate|].
  split; [reflexivity|]. split; [reflexivity|].
  split; [vm_compute; reflexivity|].
  split; [vm_compute; reflexivity|].
  repeat split; vm_compute; reflexivity.
Qed.

(** *** Rows without an equal row before them *)

Module DuplicateFacts.
Import Frame Spec SelectFacts FrameFacts AlignFacts.

Lemma existsb_false_incl {A} (p : A -> bool) (l l' : list A) :
  incl l l' -> existsb p l' = false -> existsb p l = false.
Proof.
  intros Hincl H. destruct (existsb p l) eqn:E; auto.
  apply existsb_exists in E. destruct E as (x & Hx & Hp).
  assert (existsb p l' = true) by (apply existsb_exists; eauto).
  congruence.
Qed.

(** With fewer rows seen, fewer rows are marked. *)
Lemma duplicated_from_incl rs :
  forall seen seen',
    incl seen seen' ->
    all_false (duplicated_from seen' rs) -> all_false (duplicated_from seen rs).
Proof.
  induction rs as [|r rs IH]; intros seen seen' Hincl H; simpl in *.
  - constructor.
  - inversion H as [|? ? Hr Hrs]; subst. constructor.
    + eauto using existsb_false_incl.
    + apply IH with (r :: seen'); auto.
      intros x [<-|Hx]; [left; reflexivity | right; auto].
Qed.

(** What [drop_duplicates] keeps has no duplicate. *)
Lemma duplicated_from_dropped rs :
  forall seen,
    all_false (duplicated_from seen
                 (select (map negb (duplicated_from seen rs)) rs)).
Proof.
  induction rs as [|r rs IH]; intros seen; simpl.
  - constructor.
  - destruct (existsb (row_eqb r) seen) eqn:E; simpl.
    + apply duplicated_from_incl with (r :: seen); auto.
      intros x Hx. right; auto.
    + rewrite E. constructor; [reflexivity | apply IH].
Qed.

(** Row selection makes no duplicate. *)
Lemma duplicated_from_select rs :
  forall seen m,
    all_false (duplicated_from seen rs) ->
    all_false (duplicated_from seen (select m rs)).
Proof.
  induction rs as [|r rs IH]; intros seen [|b m] H; simpl in *;
    try constructor.
  inversion H as [|? ? Hr Hrs]; subst.
  destruct b; simpl.
  - constructor; [assumption | now apply IH].
  - apply duplicated_from_incl with (r :: seen); [|now apply IH].
    intros x Hx. right; auto.
Qed.

Lemma rows_n_loc n m df :
  aligned_n n df -> List.length m = n ->
  rows_n (count_true m) (loc m df) = select m (rows_n n df).
Proof.
  intros Ha Hm. induction Ha as [|[l s] df Hs Ha IH]; simpl.
  - subst n. symmetry. apply select_repeat.
  - rewrite IH, cells_take. symmetry. apply select_zip_cons.
Qed.

Lemma rows_loc n m df :
  aligned_n n df -> List.length m = n ->
  rows (loc m df) = select m (rows df).
Proof.
  intros Ha Hm.
  destruct df as [|[l s] df]; [unfold rows; simpl; now rewrite select_nil_r|].
  unfold rows.
  rewrite (aligned_n_nrows n ((l, s) :: df) Ha) by discriminate.
  rewrite <- (rows_n_loc n m _ Ha Hm). f_equal.
  simpl. inversion Ha; subst. apply len_take. now simpl in *.
Qed.

Lemma drop_duplicates_no_duplicate n df :
  aligned_n n df -> all_false (duplicated (drop_duplicates df)).
Proof.
  intros Ha. destruct df as [|c df]; [constructor|].
  unfold drop_duplicates, duplicated at 1.
  rewrite (rows_loc n) by
    (auto; rewrite length_map; apply length_duplicated; auto; discriminate).
  apply duplicated_from_dropped.
Qed.

Lemma loc_no_duplicate n m df :
  aligned_n n df -> List.length m = n ->
  all_false (duplicated df) -> all_false (duplicated (loc m df)).
Proof.
  intros Ha Hm H. unfold duplicated. rewrite (rows_loc n) by auto.
  now apply duplicated_from_select.
Qed.

(** Nothing to drop where there is no duplicate. *)
Lemma drop_duplicates_id n df :
  aligned_n n df -> all_false (duplicated df) -> drop_duplicates df = df.
Proof.
  intros Ha H. destruct df as [|c df]; [reflexivity|].
  unfold drop_duplicates. apply loc_all with n; auto.
  - rewrite length_map. apply length_duplicated; auto. discriminate.
  - rewrite Forall_map. eapply Forall_impl; [|exact H].
    now intros b ->.
Qed.

End DuplicateFacts.

(** *** Columns with nothing left to impute *)

Module SettledFacts.
Import Frame Spec SelectFacts FrameFacts ColumnFacts.

Lemma length_insert x l :
  List.length (Stats.insert x l) = S (List.length l).
Proof.
  induction l as [|y l IH]; simpl; auto.
  destruct (Qle_bool x y); simpl; auto.
Qed.

Lemma length_sort l : List.length (Stats.sort l) = List.length l.
Proof.
  induction l as [|x l IH]; simpl; auto.
  now rewrite length_insert, IH.
Qed.

Lemma dropna_nil {A} (xs : list (option A)) :
  Stats.dropna xs = [] <-> Forall (fun x => x = None) xs.
Proof.
  induction xs as [|[x|] xs IH]; simpl.
  - split; auto.
  - split; [discriminate|]. intros H. inversion H; discriminate.
  - rewrite IH. split; intros H; [constructor; auto | now inversion H].
Qed.

Lemma median_None xs : Stats.median xs = None <-> Stats.dropna xs = [].
Proof.
  unfold Stats.median. split.
  - intros H. apply length_zero_iff_nil. rewrite <- length_sort.
    destruct (List.length (Stats.sort (Stats.dropna xs))); auto.
    destruct (Nat.even (S n)); discriminate.
  - intros ->. reflexivity.
Qed.

Lemma settled_take : take_closed settled.
Proof.
  intros m [xs|xs|xs]; simpl; auto using select_Forall.
  intros [H|H]; [left | right]; now apply select_Forall.
Qed.

Lemma settled_fill s s' :
  fill_categorical_col (fill_numeric_col s) = Ok s' -> settled s'.
Proof.
  destruct s as [xs|xs|xs]; simpl.
  - intros [= <-]. simpl. destruct (Stats.median xs) as [v|] eqn:E.
    + left. apply fillna_Some_full.
    + right. simpl. now apply dropna_nil, median_None.
  - intros H. bind_inv H. injection H as <-. apply fillna_Some_full.
  - intros [= <-]. exact I.
Qed.

Lemma settled_imputation df1 :
  forall df2,
    fill_categorical (fill_numeric df1) = Ok df2 ->
    Forall (fun c => settled (snd c)) df2.
Proof.
  induction df1 as [|[l s] df1 IH]; simpl; intros df2 H.
  - injection H as <-. constructor.
  - unbind H as s' Hs. unbind H as rest Hrest. injection H as <-.
    constructor; eauto using settled_fill.
Qed.

Lemma settled_loc m df :
  Forall (fun c => settled (snd c)) df ->
  Forall (fun c => settled (snd c)) (loc m df).
Proof.
  intros H. unfold loc. rewrite Forall_map. simpl.
  eapply Forall_impl; [|exact H]. intros c. apply settled_take.
Qed.

Lemma settled_setitem l s df :
  settled s ->
  Forall (fun c => settled (snd c)) df ->
  Forall (fun c => settled (snd c)) (setitem l s df).
Proof. intros Hs H. apply Forall_setitem; auto. Qed.

Lemma settled_lookup l s df :
  Forall (fun c => settled (snd c)) df -> lookup l df = Some s -> settled s.
Proof.
  intros H Hl. apply lookup_In in Hl. rewrite Forall_forall in H.
  apply (H _ Hl).
Qed.

(** Nothing is imputed in a settled column. *)
Lemma fill_numeric_col_settled s : settled s -> fill_numeric_col s = s.
Proof.
  destruct s as [xs|xs|xs]; simpl; auto.
  intros [H|H]; f_equal.
  - now apply fillna_full.
  - apply dropna_nil, median_None in H. now rewrite H.
Qed.

Lemma fill_numeric_settled df :
  Forall (fun c => settled (snd c)) df -> fill_numeric df = df.
Proof.
  unfold fill_numeric. induction 1 as [|[l s] df Hs H IH]; simpl; auto.
  rewrite IH. simpl in Hs. now rewrite fill_numeric_col_settled.
Qed.

(** Some value of a list is counted as often as any. *)
Lemma max_attained {A} (f : A -> nat) (l : list A) :
  l <> [] ->
  exists v, In v l /\ f v = fold_right (fun x m => Nat.max (f x) m) O l.
Proof.
  induction l as [|x l IH]; [congruence|]. intros _.
  destruct l as [|y l].
  - exists x. simpl. split; auto. lia.
  - destruct IH as (v & Hv & E); [discriminate|].
    set (rest := fold_right (fun x m => Nat.max (f x) m) O (y :: l)) in *.
    change (fold_right (fun x m => Nat.max (f x) m) O (x :: y :: l))
      with (Nat.max (f x) rest).
    destruct (Nat.le_ge_cases rest (f x)) as [Hle|Hge].
    + exists x. split; [left; reflexivity | lia].
    + exists v. split; [right; exact Hv | lia].
Qed.

Lemma mode0_full xs :
  xs <> [] -> Forall (fun x => isSome x = true) xs ->
  exists m, Mode.mode0 xs = Ok m.
Proof.
  intros Hne Hfull. unfold Mode.mode0, Mode.mode.
  set (l := Stats.dropna xs).
  assert (Hl : l <> []).
  { destruct xs as [|[x|] xs]; [congruence | discriminate |].
    inversion Hfull; discriminate. }
  destruct (max_attained (fun v => Mode.count v l) l Hl) as (v & Hv & E).
  fold (Mode.max_count l) in E.
  assert (Hin : In v (Mode.sort_unique
                        (filter (fun v => Nat.eqb (Mode.count v l)
                                            (Mode.max_count l)) l))).
  { apply ModeFacts.sort_unique_In, filter_In. split; auto.
    now apply Nat.eqb_eq. }
  destruct (Mode.sort_unique _) as [|m t]; [destruct Hin | eauto].
Qed.

Lemma fill_categorical_col_settled s :
  settled s -> (0 < len s)%nat -> fill_categorical_col s = Ok s.
Proof.
  destruct s as [xs|xs|xs]; simpl; auto.
  intros Hfull Hlen.
  destruct (mode0_full xs) as (m & ->); auto.
  - destruct xs; simpl in *; [lia | discriminate].
  - simpl. f_equal. f_equal.
    apply (fillna_full (Some m) xs Hfull).
Qed.

Lemma fill_categorical_settled n df :
  aligned_n n df -> (0 < n)%nat ->
  Forall (fun c => settled (snd c)) df -> fill_categorical df = Ok df.
Proof.
  intros Ha Hn H. induction H as [|[l s] df Hs H IH]; simpl; auto.
  inversion Ha as [|? ? Hl Ha']; subst. simpl in *.
  rewrite fill_categorical_col_settled by (auto; lia). simpl.
  now rewrite IH.
Qed.

End SettledFacts.

(** *** The stages on a table that is already clean *)

Section Recleaning.
Import Frame Spec SelectFacts FrameFacts ColumnFacts LengthFacts AlignFacts.
Import DuplicateFacts SettledFacts.

Variable fl : Arith.
Variable parse_str : list (option string) -> string -> option Z.
Variable parse_num : Q -> option Z.

Local Abbreviation to_datetime := (Script.to_datetime parse_str parse_num).
Local Abbreviation convert_date := (Script.convert_date parse_str parse_num).
Local Abbreviation cleaned_df := (Script.cleaned_df parse_str parse_num).
Local Abbreviation deduplicated := (Script.deduplicated parse_str parse_num).
Local Abbreviation clean := (Script.clean fl parse_str parse_num).

Lemma normalize_columns_id df :
  Forall (fun l => clean_label l = l) (columns df) -> normalize_columns df = df.
Proof.
  unfold normalize_columns, columns.
  induction df as [|[l s] df IH]; simpl; intros H; auto.
  inversion H as [|? ? Hl Hdf]; subst. simpl in Hl.
  now rewrite Hl, IH.
Qed.

Lemma existsb_eqb_In l ls :
  existsb (String.eqb l) ls = true <-> In l ls.
Proof.
  rewrite existsb_exists. split.
  - intros (x & Hx & E). apply String.eqb_eq in E. now subst.
  - intros H. exists l. split; auto. apply String.eqb_refl.
Qed.

Lemma rename_value_no_value df : ~ In value_ (columns (rename_value df)).
Proof.
  unfold rename_value.
  destruct (existsb (String.eqb value_) (columns df)) eqn:E.
  - unfold columns. rewrite map_map. simpl. intros H.
    apply in_map_iff in H. destruct H as ([l s] & Hl & _). simpl in Hl.
    destruct (String.eqb_spec l value_); [discriminate | congruence].
  - intros H. apply existsb_eqb_In in H. congruence.
Qed.

Lemma rename_value_id df : ~ In value_ (columns df) -> rename_value df = df.
Proof.
  intros H. unfold rename_value.
  destruct (existsb (String.eqb value_) (columns df)) eqn:E; auto.
  apply existsb_eqb_In in E. contradiction.
Qed.

Lemma all_true_and a b :
  Forall (fun x => x = true) a -> Forall (fun x => x = true) b ->
  Forall (fun x => x = true)
    (map (fun p : bool * bool => andb (fst p) (snd p)) (combine a b)).
Proof.
  intros Ha. revert b. induction Ha as [|x a Hx Ha IH]; intros b Hb; simpl.
  - constructor.
  - destruct Hb as [|y b Hy Hb]; simpl; constructor; auto.
    subst. reflexivity.
Qed.

Lemma dropna_required_id n df :
  aligned_n n df ->
  has_col no_missing sales_person df ->
  has_col no_missing total_sales_value df ->
  dropna_required df = Ok df.
Proof.
  intros Ha (sp & Hsp & Hfsp) (tsv & Htsv & Hftsv).
  unfold dropna_required. rewrite Hsp, Htsv. f_equal.
  apply loc_all with n; auto using all_true_and.
  apply length_required_mask; eapply aligned_n_lookup; eauto.
Qed.

Lemma convert_date_id df :
  has_col (fun s => exists ds, s = Datetime ds) date df ->
  convert_date df = Ok df.
Proof.
  intros (s & Hs & ds & ->). unfold Script.convert_date, getitem.
  rewrite Hs. simpl. f_equal. now apply setitem_id.
Qed.

Lemma normalize_priority_key v :
  In v priority_keys -> normalize_priority v = v.
Proof. simpl. intros [<-|[<-|[<-|[<-|[]]]]]; reflexivity. Qed.

Lemma normalize_priority_keys xs :
  Forall (fun x => exists v, x = Some v /\ In v priority_keys) xs ->
  map (option_map normalize_priority) xs = xs.
Proof.
  induction 1 as [|x xs (v & -> & Hv) Hk IH]; simpl; auto.
  now rewrite normalize_priority_key, IH.
Qed.

Lemma priority_column_id df : priority_pair df -> priority_column df = Ok df.
Proof.
  intros (xs & Hp & Hk & _). unfold priority_column, getitem.
  rewrite Hp. simpl. f_equal. apply setitem_id.
  now rewrite normalize_priority_keys.
Qed.

Lemma select_valid_id n df :
  aligned_n n df -> priority_pair df -> select_valid df = Ok df.
Proof.
  intros Ha (xs & Hp & Hk & Hn). unfold select_valid, getitem.
  rewrite Hp. cbn [bind].
  assert (Hloc : loc (isin_keys (Object xs)) df = df).
  { apply loc_all with n; auto.
    - rewrite len_isin_keys. eapply aligned_n_lookup; eauto.
    - unfold isin_keys. rewrite Forall_map. eapply Forall_impl; [|exact Hk].
      intros x (v & -> & Hv). now apply existsb_eqb_In. }
  rewrite Hloc, Hp. cbn [bind]. f_equal. now apply setitem_id.
Qed.

(** *** What the first cleaning leaves *)

Lemma clean_cleaned_df raw c :
  clean raw = Ok c -> exists df, cleaned_df raw = Ok df.
Proof.
  intros H. apply clean_Ok in H. destruct H as (dd & Hdd & _).
  unfold Script.deduplicated in Hdd. unbind Hdd as df Hdf. eauto.
Qed.

Lemma clean_no_value raw c : clean raw = Ok c -> ~ In value_ (columns c).
Proof.
  intros H. destruct (clean_cleaned_df _ _ H) as (df & Hdf).
  pose proof (columns_cleaned_df parse_str parse_num _ _ Hdf) as Hcols.
  pose proof (rename_value_no_value (normalize_columns raw)) as Hno.
  rewrite <- Hcols in Hno.
  destruct (columns_clean fl parse_str parse_num _ _ _ Hdf H) as [E|E];
    rewrite E; auto.
  intros Hin. apply in_app_or in Hin. destruct Hin as [Hin|[Hin|[]]]; auto.
  discriminate.
Qed.

Lemma clean_settled raw c :
  clean raw = Ok c -> Forall (fun col => settled (snd col)) c.
Proof.
  intros H. apply clean_Ok in H. destruct H as (dd & Hdd & Hout).
  apply deduplicated_Ok in Hdd.
  destruct Hdd as (df2 & df3 & df4 & dv & H2 & H3 & H4 & Hv & ->).
  apply imputed_Ok in H2. destruct H2 as (df1 & _ & H2).
  apply settled_imputation in H2.
  apply convert_date_Ok in H3. destruct H3 as (d & _ & ->).
  assert (S3 : Forall (fun col => settled (snd col))
                 (setitem date (to_datetime d) df2)).
  { apply settled_setitem; auto. destruct d; exact I. }
  apply priority_column_Ok in H4. destruct H4 as (ps & Hps & ->).
  pose proof (settled_lookup _ _ _ S3 Hps) as Sps. simpl in Sps.
  set (ps' := map (option_map normalize_priority) ps) in *.
  assert (S4 : Forall (fun col => settled (snd col))
                 (setitem priority (Object ps')
                    (setitem date (to_datetime d) df2))).
  { apply settled_setitem; auto. simpl. unfold ps'. rewrite Forall_map.
    eapply Forall_impl; [|exact Sps]. now intros [x|]. }
  apply select_valid_Ok in Hv. destruct Hv as (p & Hp & ->).
  rewrite lookup_setitem_same in Hp. injection Hp as <-.
  apply outlier_filter_Ok in Hout. destruct Hout as (s & xs & _ & _ & ->).
  unfold drop_duplicates. do 2 apply settled_loc.
  apply settled_setitem; [|now apply settled_loc].
  destruct (isin_keys_in_ordinal_set (Object ps')) as [Hin|Hno];
    [|exfalso; eapply Hno; reflexivity].
  apply map_priority_ordinal in Hin. destruct Hin as (ns & -> & Hns).
  left. eapply Forall_impl; [|exact Hns]. now intros x (k & -> & _).
Qed.

Lemma clean_date raw c :
  clean raw = Ok c -> has_col (fun s => exists ds, s = Datetime ds) date c.
Proof.
  intros H. apply clean_Ok in H. destruct H as (dd & Hdd & Hout).
  apply deduplicated_Ok in Hdd.
  destruct Hdd as (df2 & df3 & df4 & dv & H2 & H3 & H4 & Hv & ->).
  apply (has_col_after_date fl _ date df3 df4 dv c); auto; try discriminate.
  - intros m s (ds & ->). simpl. eauto.
  - apply convert_date_Ok in H3. destruct H3 as (d & _ & ->).
    apply has_col_setitem_same. destruct d; simpl; eauto.
Qed.

Lemma clean_no_duplicate n raw c :
  aligned_n n raw -> clean raw = Ok c -> all_false (duplicated c).
Proof.
  intros Ha H. apply clean_Ok in H. destruct H as (dd & Hdd & Hout).
  destruct (aligned_n_deduplicated _ _ _ _ _ Ha Hdd) as (n' & _ & Hdd').
  unfold Script.deduplicated in Hdd.
  unbind Hdd as df Hdf. unbind Hdd as dv Hdv. injection Hdd as <-.
  destruct (aligned_n_cleaned_df _ _ _ _ _ Ha Hdf) as (n1 & _ & Ha1).
  destruct (aligned_n_select_valid _ _ _ Ha1 Hdv) as (n2 & _ & Ha2).
  apply outlier_filter_Ok in Hout. destruct Hout as (s & xs & Hs & Hxs & ->).
  apply loc_no_duplicate with n'; auto.
  - rewrite length_map, (length_as_numbers _ _ Hxs).
    eapply aligned_n_lookup; eauto.
  - now apply drop_duplicates_no_duplicate with n2.
Qed.

Lemma clean_sales_values raw c :
  clean raw = Ok c -> exists ys, sales_values c = Ok ys.
Proof.
  intros H. apply clean_Ok in H. destruct H as (dd & _ & Hout).
  apply outlier_filter_Ok in Hout. destruct Hout as (s & xs & Hs & Hxs & ->).
  eexists. apply sales_values_loc. eapply sales_values_intro; eauto.
Qed.

(** A clean, non-empty table with normal labels passes sections 4 to 4.6
    unchanged. *)
Lemma deduplicated_clean raw c :
  aligned raw -> clean raw = Ok c ->
  (0 < nrows c)%nat ->
  Forall (fun l => clean_label l = l) (columns c) ->
  deduplicated c = Ok c.
Proof.
  intros Hal H Hrows Hlabels.
  destruct (aligned_n_clean _ _ _ _ _ _ (aligned_aligned_n _ Hal) H)
    as (n & _ & Ha).
  assert (Hn : (0 < n)%nat).
  { destruct c as [|col c]; [simpl in Hrows; lia|].
    now rewrite <- (aligned_n_nrows _ _ Ha) by discriminate. }
  destruct (clean_required_no_missing fl parse_str parse_num _ _ H) as [Hsp Htsv].
  pose proof (clean_settled _ _ H) as Hset.
  pose proof (clean_priority_pair fl parse_str parse_num _ _ H) as Hpair.
  unfold Script.deduplicated, Script.cleaned_df, Script.imputed.
  rewrite (normalize_columns_id _ Hlabels).
  rewrite (rename_value_id _ (clean_no_value _ _ H)).
  rewrite (dropna_required_id n) by assumption. cbn [bind].
  rewrite (fill_numeric_settled _ Hset).
  rewrite (fill_categorical_settled n) by assumption. cbn [bind].
  rewrite (convert_date_id _ (clean_date _ _ H)). cbn [bind].
  rewrite (priority_column_id _ Hpair). cbn [bind].
  rewrite (select_valid_id n) by assumption. cbn [bind].
  f_equal. apply drop_duplicates_id with n; auto.
  now apply clean_no_duplicate with (nrows raw) raw.
Qed.

(** C4 (amended). Cleaning a cleaned table that has at least one row and
    whose labels are in normal form changes nothing up to the outlier
    filter: labels, required fields, imputations, dates, priorities and
    de-duplication leave it as it is.  The outlier filter then runs again,
    with the bounds taken from the cleaned table: the result is the cleaned
    table cut down to the rows within those bounds, with the same
    columns. *)
Theorem recleaning_only_refilters raw c :
  aligned raw -> clean raw = Ok c ->
  (0 < nrows c)%nat ->
  Forall (fun l => clean_label l = l) (columns c) ->
  deduplicated c = Ok c /\
  exists ys c',
    sales_values c = Ok ys /\
    c' = loc (map (in_bounds fl ys) ys) c /\
    clean c = Ok c' /\
    columns c' = columns c /\
    (nrows c' <= nrows c)%nat.
Proof.
  intros Hal H Hrows Hlabels.
  pose proof (deduplicated_clean _ _ Hal H Hrows Hlabels) as Hd.
  split; [exact Hd|].
  destruct (clean_sales_values _ _ H) as (ys & Hys).
  exists ys, (loc (map (in_bounds fl ys) ys) c).
  split; [exact Hys|]. split; [reflexivity|]. split; [|split].
  - unfold Script.clean. rewrite Hd. cbn [bind].
    apply sales_values_Ok in Hys. destruct Hys as (s & Hs & Hxs).
    unfold outlier_filter, getitem. rewrite Hs. cbn [bind].
    rewrite Hxs. reflexivity.
  - apply columns_loc.
  - destruct c as [|[l s] c]; simpl; auto. apply len_take_le.
Qed.

End Recleaning.

Lemma recleaning_only_refilters_witness :
  Frame.aligned (Examples.ledger [1; 2; 3; 4; 5; 10; 100]%Z) /\
  Examples.clean (Examples.ledger [1; 2; 3; 4; 5; 10; 100]%Z)
  = Ok (Examples.ledger_clean [1; 2; 3; 4; 5; 10]%Z) /\
  Script.deduplicated IsoDate.parse_str IsoDate.parse_num
    (Examples.ledger_clean [1; 2; 3; 4; 5; 10]%Z)
  = Ok (Examples.ledger_clean [1; 2; 3; 4; 5; 10]%Z).
Proof.
  assert (Ha : Frame.aligned (Examples.ledger [1; 2; 3; 4; 5; 10; 100]%Z))
    by (repeat constructor).
  assert (Hc : Examples.clean (Examples.ledger [1; 2; 3; 4; 5; 10; 100]%Z)
               = Ok (Examples.ledger_clean [1; 2; 3; 4; 5; 10]%Z))
    by (vm_compute; reflexivity).
  split; [exact Ha|]. split; [exact Hc|].
  apply (recleaning_only_refilters exact IsoDate.parse_str IsoDate.parse_num
           (Examples.ledger [1; 2; 3; 4; 5; 10; 100]%Z)
           (Examples.ledger_clean [1; 2; 3; 4; 5; 10]%Z) Ha Hc).
  - simpl. lia.
  - repeat constructor.
Defined.

(* ===================================================================== *)
(** * Further properties of the cleaning stages *)

(** ** De-duplication *)

Section MoreFrames.
Import Frame Spec SelectFacts FrameFacts ColumnFacts LengthFacts AlignFacts.
Import DuplicateFacts SettledFacts.

(** X1. [drop_duplicates] leaves no row that equals an earlier one, and
    running it again changes nothing. *)
Theorem drop_duplicates_idempotent df :
  aligned df ->
  all_false (duplicated (drop_duplicates df)) /\
  drop_duplicates (drop_duplicates df) = drop_duplicates df.
Proof.
  intros Hal. apply aligned_aligned_n in Hal.
  pose proof (drop_duplicates_no_duplicate _ _ Hal) as Hno.
  split; [exact Hno|].
  destruct (aligned_n_drop_duplicates _ _ Hal) as (n' & _ & Ha').
  now apply drop_duplicates_id with n'.
Qed.

End MoreFrames.

Lemma drop_duplicates_idempotent_witness :
  Frame.aligned (Examples.ledger [7; 7; 3; 7]%Z) /\
  drop_duplicates (Examples.ledger [7; 7; 3; 7]%Z) = Examples.ledger [7; 3]%Z /\
  drop_duplicates (drop_duplicates (Examples.ledger [7; 7; 3; 7]%Z))
  = drop_duplicates (Examples.ledger [7; 7; 3; 7]%Z).
Proof.
  assert (Ha : Frame.aligned (Examples.ledger [7; 7; 3; 7]%Z))
    by (repeat constructor).
  split; [exact Ha|]. split; [vm_compute; reflexivity|].
  apply (drop_duplicates_idempotent _ Ha).
Defined.

Section KeptRows.
Import Frame Spec SelectFacts FrameFacts ColumnFacts LengthFacts AlignFacts.
Import DuplicateFacts.

Lemma cell_eqb_trans a b c :
  cell_eqb a b = true -> cell_eqb b c = true -> cell_eqb a c = true.
Proof.
  destruct a, b, c; simpl; try discriminate; auto.
  - rewrite !Qeq_bool_iff. intros H1 H2. now rewrite H1.
  - rewrite !String.eqb_eq. congruence.
  - rewrite !Z.eqb_eq. congruence.
Qed.

Lemma row_eqb_trans r1 :
  forall r2 r3,
    row_eqb r1 r2 = true -> row_eqb r2 r3 = true -> row_eqb r1 r3 = true.
Proof.
  induction r1 as [|a r1 IH]; intros [|b r2] [|c r3]; simpl;
    try discriminate; auto.
  intros H1 H2. apply andb_prop in H1, H2.
  destruct H1 as [Hab H1], H2 as [Hbc H2].
  now rewrite (cell_eqb_trans _ _ _ Hab Hbc), (IH _ _ H1 H2).
Qed.

(** A row is marked only when it equals a row seen before, and then an
    equal row has been kept. *)
Lemma duplicated_from_covers rs :
  forall seen r,
    In r rs ->
    existsb (row_eqb r) seen = true \/
    exists k,
      In k (select (map negb (duplicated_from seen rs)) rs) /\
      row_eqb r k = true.
Proof.
  induction rs as [|r0 rs IH]; intros seen r Hr; [destruct Hr|].
  simpl. destruct Hr as [<-|Hr].
  - destruct (existsb (row_eqb r0) seen) eqn:E; simpl; auto.
    right. exists r0. split; [left; reflexivity | apply row_eqb_refl].
  - destruct (IH (r0 :: seen) r Hr) as [Hseen|(k & Hk & Hrk)].
    + simpl in Hseen. apply orb_prop in Hseen. destruct Hseen as [Hr0|Hseen]; auto.
      destruct (existsb (row_eqb r0) seen) eqn:E; simpl.
      * left. apply existsb_exists in E. destruct E as (s & Hs & Hr0s).
        apply existsb_exists. exists s. split; auto.
        now apply row_eqb_trans with r0.
      * right. exists r0. split; [left; reflexivity | exact Hr0].
    + right. exists k. split; auto.
      destruct (existsb (row_eqb r0) seen); simpl; auto.
Qed.

(** X2. De-duplication loses no row: every row of the table equals a row
    that is kept, and every kept row is a row of the table. *)
Theorem drop_duplicates_keeps_a_copy df :
  aligned df ->
  (forall r, In r (rows df) ->
             exists k, In k (rows (drop_duplicates df)) /\ row_eqb r k = true) /\
  (forall k, In k (rows (drop_duplicates df)) -> In k (rows df)).
Proof.
  intros Hal. apply aligned_aligned_n in Hal.
  assert (Hrows : rows (drop_duplicates df)
                  = select (map negb (duplicated df)) (rows df)).
  { destruct df as [|c df]; [reflexivity|].
    unfold drop_duplicates. apply rows_loc with (nrows (c :: df)); auto.
    rewrite length_map. apply length_duplicated; auto. discriminate. }
  rewrite Hrows. split.
  - intros r Hr.
    destruct (duplicated_from_covers (rows df) [] r Hr) as [H|H];
      [discriminate H | exact H].
  - intros k. apply select_In.
Qed.

End KeptRows.

Lemma drop_duplicates_keeps_a_copy_witness :
  Frame.aligned (Examples.ledger [7; 7; 3; 7]%Z) /\
  forall k,
    In k (Frame.rows (drop_duplicates (Examples.ledger [7; 7; 3; 7]%Z))) ->
    In k (Frame.rows (Examples.ledger [7; 7; 3; 7]%Z)).
Proof.
  assert (Ha : Frame.aligned (Examples.ledger [7; 7; 3; 7]%Z))
    by (repeat constructor).
  split; [exact Ha|].
  apply (drop_duplicates_keeps_a_copy _ Ha).
Defined.

(** ** Invariants of the cleaned table *)

Section CleanedInvariants.
Import Frame Spec SelectFacts FrameFacts ColumnFacts LengthFacts AlignFacts.
Import DuplicateFacts SettledFacts.

Variable fl : Arith.
Variable parse_str : list (option string) -> string -> option Z.
Variable parse_num : Q -> option Z.

Local Abbreviation cleaned_df := (Script.cleaned_df parse_str parse_num).
Local Abbreviation clean := (Script.clean fl parse_str parse_num).

(** X3. The cleaned table is a frame again (all its columns have the same
    number of entries) and no row of it equals an earlier row: the outlier
    filter, which runs after the de-duplication, brings no duplicate
    back. *)
Theorem cleaned_rows_distinct raw c :
  aligned raw -> clean raw = Ok c ->
  aligned c /\ all_false (duplicated c).
Proof.
  intros Hal H. apply aligned_aligned_n in Hal. split.
  - destruct (aligned_n_clean _ _ _ _ _ _ Hal H) as (n & _ & Hn).
    now apply aligned_n_aligned with n.
  - now apply clean_no_duplicate with fl parse_str parse_num (nrows raw) raw.
Qed.

(** X4. In the cleaned table nothing is left to impute in an object or
    numeric column: every object column is full, and a numeric column is
    full unless it has no value at all (its median is NaN, and the column
    stays empty). *)
Theorem cleaned_columns_settled raw c :
  clean raw = Ok c ->
  forall l s, In (l, s) c ->
    match s with
    | Object xs => Forall (fun x => isSome x = true) xs
    | Numeric xs =>
        Forall (fun x => isSome x = true) xs \/ Forall (fun x => x = None) xs
    | Datetime _ => True
    end.
Proof.
  intros H l s Hin.
  pose proof (clean_settled _ _ _ _ _ H) as Hset.
  rewrite Forall_forall in Hset. specialize (Hset _ Hin).
  destruct s; exact Hset.
Qed.

(** X5. In the cleaned table [priority_numeric] is, row by row, the entry
    of [priority_map] for the row's [priority], which is one of its keys. *)
Theorem priority_numeric_follows_priority raw c :
  clean raw = Ok c ->
  exists ps,
    lookup priority c = Some (Object ps) /\
    lookup priority_numeric c
    = Some (Numeric (map (fun p => match p with
                                   | Some v => option_map inject_Z
                                                 (map_get v priority_map)
                                   | None => None
                                   end) ps)) /\
    Forall (fun p => exists v k,
                p = Some v /\ In v priority_keys /\
                map_get v priority_map = Some k /\ (1 <= k <= 4)%Z) ps.
Proof.
  intros H.
  destruct (clean_priority_pair fl parse_str parse_num _ _ H)
    as (ps & Hp & Hk & Hn).
  exists ps. split; [exact Hp|]. split; [exact Hn|].
  eapply Forall_impl; [|exact Hk].
  intros p (v & -> & Hv). destruct (map_get_priority v Hv) as (k & Hm & Hr).
  exists v, k. auto.
Qed.

(** X6. The labels of the cleaned table are the raw labels, normalised and
    with [value_] renamed, in their order; [priority_numeric] comes last
    unless a column of that name was there, which is then overwritten in
    place. *)
Theorem cleaned_columns_labels raw c :
  clean raw = Ok c ->
  let labels := columns (rename_value (normalize_columns raw)) in
  (In priority_numeric labels -> columns c = labels) /\
  (~ In priority_numeric labels -> columns c = labels ++ [priority_numeric]).
Proof.
  intros H labels.
  destruct (clean_cleaned_df _ _ _ _ _ H) as (df & Hdf).
  pose proof (columns_cleaned_df _ _ _ _ Hdf) as Hcols. fold labels in Hcols.
  apply clean_Ok in H. destruct H as (dd & Hdd & Hout).
  unfold Script.deduplicated in Hdd. fold cleaned_df in Hdd.
  rewrite Hdf in Hdd. cbn [bind] in Hdd.
  unbind Hdd as dv Hdv. injection Hdd as <-.
  apply select_valid_Ok in Hdv. destruct Hdv as (p & _ & ->).
  apply outlier_filter_Ok in Hout. destruct Hout as (s & xs & _ & _ & ->).
  unfold drop_duplicates. rewrite !columns_loc. split; intros Hin.
  - rewrite columns_setitem_present; rewrite columns_loc; congruence.
  - rewrite columns_setitem_absent; rewrite columns_loc; congruence.
Qed.

End CleanedInvariants.

Lemma cleaned_rows_distinct_witness :
  Frame.aligned (Examples.ledger [7; 7; 3; 7]%Z) /\
  Examples.clean (Examples.ledger [7; 7; 3; 7]%Z)
  = Ok (Examples.ledger_clean [7; 3]%Z) /\
  Frame.aligned (Examples.ledger_clean [7; 3]%Z) /\
  Spec.all_false (Frame.duplicated (Examples.ledger_clean [7; 3]%Z)).
Proof.
  assert (Ha : Frame.aligned (Examples.ledger [7; 7; 3; 7]%Z))
    by (repeat constructor).
  assert (Hc : Examples.clean (Examples.ledger [7; 7; 3; 7]%Z)
               = Ok (Examples.ledger_clean [7; 3]%Z))
    by (vm_compute; reflexivity).
  split; [exact Ha|]. split; [exact Hc|].
  exact (cleaned_rows_distinct exact IsoDate.parse_str IsoDate.parse_num _ _ Ha Hc).
Defined.

Lemma cleaned_columns_settled_witness :
  exists c,
    Examples.clean Examples.dated = Ok c /\
    In ("units", Numeric [Examples.num 3; Examples.num 4; Examples.num 5;
                          Examples.num 4]) c /\
    (Forall (fun x => Frame.isSome x = true)
       [Examples.num 3; Examples.num 4; Examples.num 5; Examples.num 4] \/
     Forall (fun x => x = None)
       [Examples.num 3; Examples.num 4; Examples.num 5; Examples.num 4]).
Proof.
  destruct (Examples.clean Examples.dated) as [c|] eqn:Hc;
    [|vm_compute in Hc; discriminate].
  exists c. split; [reflexivity|].
  assert (Hin : In ("units", Numeric [Examples.num 3; Examples.num 4;
                                      Examples.num 5; Examples.num 4]) c).
  { vm_compute in Hc. injection Hc as <-. do 4 right. left. reflexivity. }
  split; [exact Hin|].
  exact (cleaned_columns_settled exact IsoDate.parse_str IsoDate.parse_num
           _ _ Hc _ _ Hin).
Defined.

Lemma priority_numeric_follows_priority_witness :
  exists c ps,
    Examples.clean Examples.picky = Ok c /\
    Frame.lookup priority c = Some (Object ps) /\
    ps = [Some "High"; Some "Low"] /\
    Frame.lookup priority_numeric c
    = Some (Numeric [Examples.num 3; Examples.num 1]).
Proof.
  destruct (Examples.clean Examples.picky) as [c|] eqn:Hc;
    [|vm_compute in Hc; discriminate].
  destruct (priority_numeric_follows_priority exact IsoDate.parse_str
              IsoDate.parse_num _ _ Hc) as (ps & Hp & Hn & _).
  exists c, ps. split; [reflexivity|]. split; [exact Hp|].
  vm_compute in Hc. injection Hc as <-.
  vm_compute in Hp. injection Hp as <-. split; reflexivity.
Defined.

Lemma cleaned_columns_labels_witness :
  exists c,
    Examples.clean (Examples.ledger [7; 3]%Z) = Ok c /\
    Frame.columns c
    = ["sales_person"; "total_sales_value"; "priority"; "date";
       "priority_numeric"].
Proof.
  destruct (Examples.clean (Examples.ledger [7; 3]%Z)) as [c|] eqn:Hc;
    [|vm_compute in Hc; discriminate].
  exists c. split; [reflexivity|].
  destruct (cleaned_columns_labels exact IsoDate.parse_str IsoDate.parse_num
              _ _ Hc) as [_ Habsent].
  apply Habsent. vm_compute.
  intros [H|[H|[H|[H|[]]]]]; discriminate H.
Defined.

(** ** When the mode imputation raises *)

Section ModeErrors.
Import Frame Spec SelectFacts FrameFacts ColumnFacts SettledFacts.

Lemma mode0_present xs :
  Stats.dropna xs <> [] -> exists m, Mode.mode0 xs = Ok m.
Proof.
  intros Hl. unfold Mode.mode0, Mode.mode.
  set (l := Stats.dropna xs) in *.
  destruct (max_attained (fun v => Mode.count v l) l Hl) as (v & Hv & E).
  fold (Mode.max_count l) in E.
  assert (Hin : In v (Mode.sort_unique
                        (filter (fun v => Nat.eqb (Mode.count v l)
                                            (Mode.max_count l)) l))).
  { apply ModeFacts.sort_unique_In, filter_In. split; auto.
    now apply Nat.eqb_eq. }
  destruct (Mode.sort_unique _) as [|m t]; [destruct Hin | eauto].
Qed.

(** X7. [mode()[0]] raises exactly when the column has no value at all,
    and then it is [KeyError(0)]; on any other column it returns one of the
    column's values. *)
Theorem mode0_raises_iff xs :
  (Forall (fun x => x = None) xs -> Mode.mode0 xs = Raise (KeyError (Pos 0))) /\
  (~ Forall (fun x => x = None) xs ->
   exists m, Mode.mode0 xs = Ok m /\ In (Some m) xs).
Proof.
  split; intros H.
  - apply dropna_nil in H. unfold Mode.mode0, Mode.mode. now rewrite H.
  - destruct (mode0_present xs) as (m & Hm).
    + intros E. apply H. now apply dropna_nil.
    + exists m. split; auto. now apply ModeFacts.mode0_spec.
Qed.

(** The mode imputation of a frame stops at its first object column without
    a value. *)
Lemma fill_categorical_col_Raise s e :
  fill_categorical_col s = Raise e ->
  e = KeyError (Pos 0) /\ exists xs, s = Object xs /\ Forall (fun x => x = None) xs.
Proof.
  destruct s as [xs|xs|xs]; simpl; try discriminate.
  destruct (Mode.mode0 xs) as [m|e'] eqn:E; simpl; [discriminate|].
  intros [= ->]. unfold Mode.mode0 in E.
  destruct (Mode.mode xs) eqn:Em; [|discriminate]. injection E as <-.
  split; auto. exists xs. split; auto.
  apply dropna_nil.
  destruct (Stats.dropna xs) as [|v l] eqn:El; auto.
  destruct (mode0_present xs) as (m & Hm); [rewrite El; discriminate|].
  unfold Mode.mode0 in Hm. rewrite Em in Hm. discriminate.
Qed.


Lemma fill_categorical_Raise_iff df :
  (forall e, fill_categorical df = Raise e -> e = KeyError (Pos 0)) /\
  ((exists e, fill_categorical df = Raise e) <->
   exists l xs, In (l, Object xs) df /\ Forall (fun x => x = None) xs).
Proof.
  induction df as [|[l s] df [IHe IH]]; simpl.
  - split; [discriminate|]. split; [intros (e & H); discriminate|].
    intros (l & xs & [] & _).
  - destruct (fill_categorical_col s) as [s'|e'] eqn:Es; simpl.
    + destruct (fill_categorical df) as [df'|e''] eqn:Ed; simpl.
      * split; [discriminate|]. split; [intros (e & H); discriminate|].
        intros (k & xs & [Hin|Hin] & Hnone).
        -- injection Hin as -> ->. simpl in Es.
           apply dropna_nil in Hnone. unfold Mode.mode0, Mode.mode in Es.
           rewrite Hnone in Es. discriminate.
        -- destruct IH as [_ IH]. destruct IH as (e & He); [eauto|discriminate].
      * split; [intros e [= <-]; now apply IHe|].
        split; [|eauto].
        intros _. destruct IH as [IH _].
        destruct IH as (k & xs & Hin & Hnone); eauto 6.
    + apply fill_categorical_col_Raise in Es.
      destruct Es as (-> & xs & -> & Hnone).
      split; [now intros e [= <-]|]. split; eauto 6.
Qed.

(** With distinct labels, the column a label finds is the column of that
    label. *)
Lemma In_lookup l s df :
  NoDup (columns df) -> In (l, s) df -> lookup l df = Some s.
Proof.
  induction df as [|[k t] df IH]; simpl; [tauto|].
  intros Hnd [E|Hin]; inversion Hnd as [|? ? Hk Hdf]; subst.
  - injection E as -> ->. now rewrite String.eqb_refl.
  - destruct (String.eqb_spec l k) as [->|_]; [|auto].
    exfalso. apply Hk. unfold columns.
    now apply (in_map fst) in Hin.
Qed.

(** X8. On a frame whose labels are pairwise distinct, the mode imputation
    raises exactly when the column [df[col]] of some label is an object
    column without any value; the exception is [KeyError(0)]. *)
Theorem fill_categorical_raises_iff df :
  NoDup (columns df) ->
  (forall e, fill_categorical df = Raise e -> e = KeyError (Pos 0)) /\
  ((exists e, fill_categorical df = Raise e) <->
   exists col xs,
     lookup col df = Some (Object xs) /\ Forall (fun x => x = None) xs).
Proof.
  intros Hnd. destruct (fill_categorical_Raise_iff df) as [He Hiff].
  split; [exact He|]. rewrite Hiff. split.
  - intros (l & xs & Hin & Hnone). exists l, xs. split; [|exact Hnone].
    now apply In_lookup.
  - intros (l & xs & Hl & Hnone). exists l, xs. split; [|exact Hnone].
    now apply lookup_In.
Qed.

End ModeErrors.

Lemma mode0_raises_iff_witness :
  Mode.mode0 [None; None] = Raise (KeyError (Pos 0)) /\
  exists m, Mode.mode0 [None; Some "b"; Some "a"] = Ok m /\
            In (Some m) [None; Some "b"; Some "a"].
Proof.
  split.
  - apply (mode0_raises_iff [None; None]). repeat constructor.
  - apply (mode0_raises_iff [None; Some "b"; Some "a"]).
    intros H. inversion H as [|? ? _ H']. inversion H' as [|? ? E _].
    discriminate E.
Defined.

Lemma fill_categorical_raises_iff_witness :
  exists e,
    fill_categorical
      [("units", Numeric [None; None]); ("region", Object [None; None])]
    = Raise e.
Proof.
  apply (fill_categorical_raises_iff
           [("units", Numeric [None; None]); ("region", Object [None; None])]).
  - repeat constructor; simpl; intuition discriminate.
  - exists "region", [None; None]. split; [reflexivity|].
    repeat constructor.
Defined.

(** ** Labels and priorities as strings *)

Module StringFacts.
Import PyStr Chars.

Ltac all_ascii c := destruct c as [[] [] [] [] [] [] [] []].

Lemma lower_char_not_upper c : isupper (lower_char c) = false.
Proof. all_ascii c; reflexivity. Qed.

Lemma lower_char_idem c : lower_char (lower_char c) = lower_char c.
Proof. all_ascii c; reflexivity. Qed.

Lemma isspace_lower_char c : isspace (lower_char c) = isspace c.
Proof. all_ascii c; reflexivity. Qed.

Lemma upper_char_space c : isspace c = true -> upper_char c = c.
Proof. all_ascii c; intros H; try reflexivity; discriminate H. Qed.

Lemma all_chars_impl (p q : ascii -> bool) s :
  (forall c, p c = true -> q c = true) ->
  all_chars p s = true -> all_chars q s = true.
Proof.
  intros Hpq. induction s as [|c s IH]; simpl; auto.
  intros H. apply andb_prop in H. destruct H as [Hc Hs].
  now rewrite (Hpq _ Hc), IH.
Qed.

Lemma all_chars_lower (p : ascii -> bool) s :
  (forall c, p (lower_char c) = true) -> all_chars p (lower s) = true.
Proof.
  intros Hp. induction s as [|c s IH]; simpl; auto. now rewrite Hp, IH.
Qed.

Lemma all_chars_lstrip p s :
  all_chars p s = true -> all_chars p (lstrip s) = true.
Proof.
  induction s as [|c s IH]; simpl; auto.
  intros H. destruct (isspace c); simpl; auto.
  apply andb_prop in H. now apply IH.
Qed.

Lemma all_chars_rstrip p s :
  all_chars p s = true -> all_chars p (rstrip s) = true.
Proof.
  induction s as [|c s IH]; simpl; auto.
  intros H. apply andb_prop in H. destruct H as [Hc Hs].
  specialize (IH Hs). destruct (rstrip s) as [|d r].
  - destruct (isspace c); simpl; auto. now rewrite Hc.
  - simpl in *. now rewrite Hc.
Qed.

Lemma all_chars_remove p c s :
  all_chars p s = true ->
  all_chars (fun d => p d && negb (Ascii.eqb d c)) (remove_char c s) = true.
Proof.
  induction s as [|d s IH]; simpl; auto.
  intros H. apply andb_prop in H. destruct H as [Hd Hs].
  destruct (Ascii.eqb c d) eqn:E; simpl; auto.
  rewrite Hd, IH by auto. now rewrite Ascii.eqb_sym, E.
Qed.

Lemma all_chars_replace p c d s :
  p d = true -> Ascii.eqb d c = false ->
  all_chars p s = true ->
  all_chars (fun e => p e && negb (Ascii.eqb e c)) (replace_char c d s) = true.
Proof.
  intros Hd Hdc. induction s as [|e s IH]; simpl; auto.
  intros H. apply andb_prop in H. destruct H as [He Hs].
  rewrite IH by auto.
  destruct (Ascii.eqb c e) eqn:E.
  - now rewrite Hd, Hdc.
  - now rewrite He, Ascii.eqb_sym, E.
Qed.

End StringFacts.

Lemma clean_label_all_chars l :
  Chars.all_chars Chars.label_char (clean_label l) = true.
Proof.
  unfold clean_label.
  set (s0 := PyStr.lower (PyStr.strip l)).
  assert (H0 : Chars.all_chars (fun c => negb (PyStr.isupper c)) s0 = true).
  { apply StringFacts.all_chars_lower. intros c.
    now rewrite StringFacts.lower_char_not_upper. }
  apply (StringFacts.all_chars_remove _ PyStr.pound) in H0.
  apply (StringFacts.all_chars_remove _ PyStr.a_circumflex) in H0.
  apply (StringFacts.all_chars_replace _ " "%char "_"%char) in H0;
    [|reflexivity|reflexivity].
  revert H0. apply StringFacts.all_chars_impl. intros c H.
  unfold Chars.label_char.
  repeat (apply andb_prop in H; destruct H as [H ?]).
  repeat (apply andb_true_intro; split); assumption.
Qed.

(** X9. A normalised label has no blank in it, neither the pound sign nor
    a-circumflex, in lower or in upper case. *)
Theorem clean_label_chars l :
  Chars.all_chars Chars.kept_char (clean_label l) = true.
Proof.
  generalize (clean_label_all_chars l).
  apply StringFacts.all_chars_impl. intros c.
  unfold Chars.label_char, Chars.kept_char.
  StringFacts.all_ascii c; intros H; solve [reflexivity | discriminate H].
Qed.

Module StripFacts.
Import PyStr Chars StringFacts.

Lemma starts_ok_lstrip s : starts_ok (lstrip s) = true.
Proof.
  induction s as [|c s IH]; simpl; auto.
  destruct (isspace c) eqn:E; simpl; auto. now rewrite E.
Qed.

Lemma ends_ok_rstrip s : ends_ok (rstrip s) = true.
Proof.
  induction s as [|c s IH]; simpl; auto.
  destruct (rstrip s) as [|d r] eqn:E.
  - destruct (isspace c) eqn:Ec; simpl; auto. now rewrite Ec.
  - exact IH.
Qed.

Lemma starts_ok_rstrip s : starts_ok s = true -> starts_ok (rstrip s) = true.
Proof.
  destruct s as [|c s]; simpl; auto.
  intros Hc. destruct (rstrip s); simpl; auto.
  destruct (isspace c) eqn:E; simpl; auto. now rewrite E.
Qed.

Lemma lstrip_fixed s : starts_ok s = true -> lstrip s = s.
Proof.
  destruct s as [|c s]; simpl; auto.
  destruct (isspace c); simpl; [discriminate | reflexivity].
Qed.

Lemma rstrip_fixed s : ends_ok s = true -> rstrip s = s.
Proof.
  induction s as [|c s IH]; auto.
  destruct s as [|d s].
  - simpl. destruct (isspace c); simpl; [discriminate | reflexivity].
  - intros H. change (ends_ok (String c (String d s)))
      with (ends_ok (String d s)) in H.
    specialize (IH H).
    change (rstrip (String c (String d s)))
      with (match rstrip (String d s) with
            | EmptyString =>
                if isspace c then EmptyString else String c EmptyString
            | r => String c r
            end).
    now rewrite IH.
Qed.

Lemma strip_fixed s :
  starts_ok s = true -> ends_ok s = true -> strip s = s.
Proof.
  intros Hs He. unfold strip. rewrite (lstrip_fixed _ Hs).
  now apply rstrip_fixed.
Qed.

Lemma strip_ok s : starts_ok (strip s) = true /\ ends_ok (strip s) = true.
Proof.
  unfold strip. split.
  - apply starts_ok_rstrip, starts_ok_lstrip.
  - apply ends_ok_rstrip.
Qed.

Lemma starts_ok_lower s : starts_ok (lower s) = starts_ok s.
Proof. destruct s; simpl; auto. now rewrite isspace_lower_char. Qed.

Lemma ends_ok_lower s : ends_ok (lower s) = ends_ok s.
Proof.
  induction s as [|c s IH]; auto.
  destruct s as [|d s].
  - simpl. now rewrite isspace_lower_char.
  - exact IH.
Qed.

Lemma isspace_underscore c :
  isspace c = false ->
  isspace (if Ascii.eqb " " c then "_"%char else c) = false.
Proof. intros H. destruct (Ascii.eqb " " c); auto. Qed.

Lemma starts_ok_replace s :
  starts_ok s = true -> starts_ok (replace_char " " "_" s) = true.
Proof.
  destruct s as [|c s]; simpl; auto.
  intros H. apply negb_true_iff in H. apply negb_true_iff.
  now apply isspace_underscore.
Qed.

Lemma ends_ok_replace s :
  ends_ok s = true -> ends_ok (replace_char " " "_" s) = true.
Proof.
  induction s as [|c s IH]; auto.
  destruct s as [|d s].
  - simpl. intros H. apply negb_true_iff in H. apply negb_true_iff.
    now apply isspace_underscore.
  - intros H. exact (IH H).
Qed.

Lemma remove_absent c s :
  all_chars (fun d => negb (Ascii.eqb d c)) s = true -> remove_char c s = s.
Proof.
  induction s as [|d s IH]; simpl; auto.
  intros H. apply andb_prop in H. destruct H as [Hd Hs].
  apply negb_true_iff in Hd. rewrite Ascii.eqb_sym, Hd. now rewrite IH.
Qed.

Lemma replace_absent c d s :
  all_chars (fun e => negb (Ascii.eqb e c)) s = true -> replace_char c d s = s.
Proof.
  induction s as [|e s IH]; simpl; auto.
  intros H. apply andb_prop in H. destruct H as [He Hs].
  apply negb_true_iff in He. rewrite Ascii.eqb_sym, He. now rewrite IH.
Qed.

Lemma lower_fixed s :
  all_chars (fun c => negb (isupper c)) s = true -> lower s = s.
Proof.
  induction s as [|c s IH]; simpl; auto.
  intros H. apply andb_prop in H. destruct H as [Hc Hs].
  apply negb_true_iff in Hc. unfold lower_char. now rewrite Hc, IH.
Qed.

Lemma plain_char_lower c :
  plain_char c = true ->
  negb (Ascii.eqb (lower_char c) pound)
  && negb (Ascii.eqb (lower_char c) a_circumflex) = true.
Proof. all_ascii c; intros H; try reflexivity; discriminate H. Qed.

Lemma all_chars_lower_plain s :
  all_chars plain_char s = true ->
  all_chars (fun c => negb (Ascii.eqb c pound)
                      && negb (Ascii.eqb c a_circumflex)) (lower s) = true.
Proof.
  induction s as [|c s IH]; simpl; auto.
  intros H. apply andb_prop in H. destruct H as [Hc Hs].
  now rewrite (plain_char_lower _ Hc), IH.
Qed.

(** A normalised label that neither begins nor ends with white space is
    not changed by a second normalisation. *)
Lemma clean_label_fixed u :
  all_chars label_char u = true ->
  starts_ok u = true -> ends_ok u = true -> clean_label u = u.
Proof.
  intros Hu Hs He. unfold clean_label.
  rewrite (strip_fixed _ Hs He).
  rewrite lower_fixed.
  2:{ revert Hu. apply all_chars_impl. unfold label_char. intros c H.
      apply andb_prop in H. tauto. }
  rewrite (remove_absent pound u).
  2:{ revert Hu. apply all_chars_impl. unfold label_char. intros c H.
      repeat (apply andb_prop in H; destruct H as [H ?]). assumption. }
  rewrite (remove_absent a_circumflex u).
  2:{ revert Hu. apply all_chars_impl. unfold label_char. intros c H.
      repeat (apply andb_prop in H; destruct H as [H ?]). assumption. }
  apply replace_absent.
  revert Hu. apply all_chars_impl. unfold label_char. intros c H.
  repeat (apply andb_prop in H; destruct H as [H ?]). assumption.
Qed.

Lemma clean_label_plain l :
  all_chars plain_char l = true ->
  clean_label l = replace_char " " "_" (lower (strip l)).
Proof.
  intros H. unfold clean_label.
  assert (Hl : all_chars (fun c => negb (Ascii.eqb c pound)
                                   && negb (Ascii.eqb c a_circumflex))
                 (lower (strip l)) = true).
  { apply all_chars_lower_plain. unfold strip.
    now apply all_chars_rstrip, all_chars_lstrip. }
  rewrite (remove_absent pound).
  2:{ revert Hl. apply all_chars_impl. intros c Hc.
      apply andb_prop in Hc. tauto. }
  rewrite (remove_absent a_circumflex); auto.
  revert Hl. apply all_chars_impl. intros c Hc. apply andb_prop in Hc. tauto.
Qed.

End StripFacts.

(** X10. Normalising a label twice is normalising it once, for a label
    without pound sign and without a-circumflex in either case.  (With one
    of them the removal can uncover white space that only a second [strip]
    takes away: a pound sign, a tab, [x] gives tab-[x], then [x].) *)
Theorem clean_label_idempotent l :
  Chars.all_chars Chars.plain_char l = true ->
  clean_label (clean_label l) = clean_label l.
Proof.
  intros H. apply StripFacts.clean_label_fixed.
  - apply clean_label_all_chars.
  - rewrite (StripFacts.clean_label_plain _ H).
    apply StripFacts.starts_ok_replace.
    rewrite StripFacts.starts_ok_lower. apply StripFacts.strip_ok.
  - rewrite (StripFacts.clean_label_plain _ H).
    apply StripFacts.ends_ok_replace.
    rewrite StripFacts.ends_ok_lower. apply StripFacts.strip_ok.
Qed.

Lemma clean_label_idempotent_witness :
  clean_label "  Sales Person " = "sales_person" /\
  clean_label (clean_label "  Sales Person ") = clean_label "  Sales Person ".
Proof.
  split; [reflexivity|].
  apply (clean_label_idempotent "  Sales Person "). reflexivity.
Defined.

(** ** Which priorities the normalisation accepts *)

Module PriorityFacts.
Import PyStr Chars StringFacts StripFacts.

Lemma lower_app a b : lower (a ++ b) = (lower a ++ lower b)%string.
Proof. induction a as [|c a IH]; simpl; auto. now rewrite IH. Qed.

Lemma all_space_lower ws :
  all_chars isspace ws = true -> all_chars isspace (lower ws) = true.
Proof.
  induction ws as [|c ws IH]; simpl; auto.
  intros H. apply andb_prop in H. destruct H as [Hc Hs].
  now rewrite isspace_lower_char, Hc, IH.
Qed.

Lemma rstrip_spaces ws : all_chars isspace ws = true -> rstrip ws = EmptyString.
Proof.
  induction ws as [|c ws IH]; simpl; auto.
  intros H. apply andb_prop in H. destruct H as [Hc Hs].
  now rewrite IH, Hc.
Qed.

(** Trailing white space does not count. *)
Lemma rstrip_app_spaces s ws :
  all_chars isspace ws = true -> rstrip (s ++ ws) = rstrip s.
Proof.
  intros H. induction s as [|c s IH]; simpl.
  - now apply rstrip_spaces.
  - now rewrite IH.
Qed.

Lemma capitalize_any_case v k :
  In k priority_keys -> lower v = lower k -> capitalize v = k.
Proof.
  intros Hk H. destruct v as [|c v]; simpl in Hk, H.
  - destruct Hk as [<-|[<-|[<-|[<-|[]]]]]; discriminate H.
  - destruct Hk as [<-|[<-|[<-|[<-|[]]]]]; simpl in H;
      injection H as Hc Hv; unfold capitalize; rewrite Hv;
      rewrite (upper_char_initial c _ (or_introl eq_refl) Hc)
      || rewrite (upper_char_initial c _ (or_intror (or_introl eq_refl)) Hc)
      || rewrite (upper_char_initial c _
                    (or_intror (or_intror (or_introl eq_refl))) Hc)
      || rewrite (upper_char_initial c _
                    (or_intror (or_intror (or_intror (or_introl eq_refl)))) Hc);
      reflexivity.
Qed.

Lemma key_not_lower k :
  In k priority_keys -> all_chars (fun c => negb (isupper c)) k = false.
Proof. simpl. intros [<-|[<-|[<-|[<-|[]]]]]; reflexivity. Qed.

Lemma strip_key_spaces k ws :
  In k priority_keys -> all_chars isspace ws = true -> strip (k ++ ws) = k.
Proof.
  intros Hk Hws. unfold strip.
  assert (Hl : lstrip (k ++ ws) = (k ++ ws)%string).
  { apply lstrip_fixed. simpl in Hk.
    destruct Hk as [<-|[<-|[<-|[<-|[]]]]]; reflexivity. }
  rewrite Hl, (rstrip_app_spaces _ _ Hws). apply rstrip_fixed.
  simpl in Hk. destruct Hk as [<-|[<-|[<-|[<-|[]]]]]; reflexivity.
Qed.

End PriorityFacts.

(** X11. A key of the ordinal table written in any letter case, followed
    by any white space, is read as that key. *)
Theorem priority_trailing_space_accepted v ws k :
  In k priority_keys ->
  PyStr.lower v = PyStr.lower k ->
  Chars.all_chars PyStr.isspace ws = true ->
  normalize_priority (v ++ ws) = k.
Proof.
  intros Hk Hv Hws. unfold normalize_priority.
  pose proof (PriorityFacts.capitalize_any_case v k Hk Hv) as Hcap.
  assert (Happ : PyStr.capitalize (v ++ ws)
                 = (PyStr.capitalize v ++ PyStr.lower ws)%string).
  { destruct v as [|c v].
    - simpl in Hv, Hk. destruct Hk as [<-|[<-|[<-|[<-|[]]]]]; discriminate Hv.
    - simpl. now rewrite PriorityFacts.lower_app. }
  rewrite Happ, Hcap.
  apply PriorityFacts.strip_key_spaces; auto.
  now apply PriorityFacts.all_space_lower.
Qed.

Lemma priority_trailing_space_accepted_witness :
  normalize_priority "mEdIuM  " = "Medium".
Proof.
  apply (priority_trailing_space_accepted "mEdIuM" "  " "Medium").
  - right; left; reflexivity.
  - reflexivity.
  - reflexivity.
Defined.

(** X12. A priority that begins with white space is never a key after the
    normalisation, whatever follows: [capitalize] leaves the white space
    first and puts everything after it in lower case, and no key is in lower
    case throughout. *)
Theorem priority_leading_space_rejected c v :
  PyStr.isspace c = true ->
  ~ In (normalize_priority (String c v)) priority_keys.
Proof.
  intros Hc Hin. unfold normalize_priority, PyStr.capitalize in Hin.
  rewrite (StringFacts.upper_char_space _ Hc) in Hin.
  unfold PyStr.strip in Hin. simpl PyStr.lstrip in Hin. rewrite Hc in Hin.
  apply PriorityFacts.key_not_lower in Hin.
  rewrite StringFacts.all_chars_rstrip in Hin; [discriminate|].
  apply StringFacts.all_chars_lstrip, StringFacts.all_chars_lower.
  intros d. now rewrite StringFacts.lower_char_not_upper.
Qed.

Lemma priority_leading_space_rejected_witness :
  ~ In (normalize_priority " Low") priority_keys.
Proof.
  apply (priority_leading_space_rejected " "%char "Low"). reflexivity.
Defined.

(** ** Median and quartiles *)

Module StatsFacts.
Import Stats Order.
Local Open Scope Q_scope.



Lemma Qle_bool_false x y : Qle_bool x y = false -> y <= x.
Proof.
  intros H. destruct (Qlt_le_dec y x) as [Hlt|Hle].
  - now apply Qlt_le_weak.
  - apply Qle_bool_iff in Hle. congruence.
Qed.






End StatsFacts.



From Stdlib Require Import Lqa.

Module QuantileFacts.
Import Stats Order StatsFacts.
Local Open Scope Q_scope.








End QuantileFacts.



(* ===================================================================== *)
(** * Properties of the aggregations *)

Module GroupFacts.
Import Analysis.

Lemma insert_strictly_ascending x l :
  strictly_ascending l -> strictly_ascending (Mode.insert x l).
Proof.
  induction l as [|y l IH]; simpl.
  - intros _. split; [constructor | exact I].
  - intros [Hy Hl].
    destruct (String.eqb_spec x y) as [->|Hne]; [split; assumption|].
    destruct (String.leb x y) eqn:Hxy; simpl.
    + split; [|split; assumption].
      constructor; [split; assumption|].
      eapply Forall_impl; [|exact Hy]. intros z [Hyz Hne'].
      split; [now apply ModeFacts.leb_trans with y|].
      intros ->. apply Hne. now apply String.leb_antisym.
    + assert (Hyx : String.leb y x = true)
        by (destruct (String.leb_total x y); congruence).
      split; [|now apply IH].
      apply Forall_forall. intros z Hz. apply ModeFacts.insert_In in Hz.
      destruct Hz as [->|Hz]; [split; [exact Hyx | congruence]|].
      rewrite Forall_forall in Hy. now apply Hy.
Qed.

Lemma sort_unique_strictly_ascending l :
  strictly_ascending (Mode.sort_unique l).
Proof.
  induction l as [|x l IH]; simpl;
    [exact I | now apply insert_strictly_ascending].
Qed.

Lemma strictly_ascending_NoDup l : strictly_ascending l -> NoDup l.
Proof.
  induction l as [|x l IH]; simpl; [constructor|].
  intros [Hx Hl]. constructor; auto.
  intros Hin. rewrite Forall_forall in Hx.
  destruct (Hx _ Hin) as [_ Hne]. now apply Hne.
Qed.

Lemma group_keys_In k ks : In k (group_keys ks) <-> In (Some k) ks.
Proof.
  unfold group_keys. now rewrite ModeFacts.sort_unique_In, ModeFacts.dropna_In.
Qed.

Lemma group_keys_NoDup ks : NoDup (group_keys ks).
Proof. apply strictly_ascending_NoDup, sort_unique_strictly_ascending. Qed.

End GroupFacts.

(** X16. [groupby] makes one group for each key that is present, in sorted
    order and without repetition; rows without a key belong to no group. *)
Theorem groupby_groups fl ks vs :
  map fst (Analysis.groupby_sum fl ks vs) = Analysis.group_keys ks /\
  Analysis.strictly_ascending (Analysis.group_keys ks) /\
  NoDup (Analysis.group_keys ks) /\
  (forall k, In k (Analysis.group_keys ks) <-> In (Some k) ks).
Proof.
  split; [|split; [|split]].
  - unfold Analysis.groupby_sum. rewrite map_map. simpl. apply map_id.
  - apply GroupFacts.sort_unique_strictly_ascending.
  - apply GroupFacts.group_keys_NoDup.
  - intros k. apply GroupFacts.group_keys_In.
Qed.

Module SummaryFacts.
Import Analysis GroupFacts.

Lemma keys_present ks :
  Forall (fun key => Frame.isSome key = true) ks ->
  Forall (fun key => exists k, key = Some k /\ In k (group_keys ks)) ks.
Proof.
  intros H. apply Forall_forall. intros key Hin.
  rewrite Forall_forall in H. specialize (H _ Hin).
  destruct key as [k|]; [|discriminate].
  exists k. split; auto. now apply group_keys_In.
Qed.

Lemma count_cons v vs :
  count (v :: vs) = ((if Frame.isSome v then 1 else 0) + count vs)%nat.
Proof. unfold count. destruct v; reflexivity. Qed.

Lemma count_indicator (k0 : string) (c : nat) (K : list string) :
  NoDup K -> In k0 K ->
  list_sum (map (fun k => if String.eqb k k0 then c else O) K) = c.
Proof.
  induction 1 as [|k K Hk HK IH]; simpl; [tauto|].
  intros [->|Hin].
  - rewrite String.eqb_refl.
    assert (E : list_sum (map (fun k => if String.eqb k k0 then c else O) K) = O).
    { clear IH HK. induction K as [|k K IHK]; simpl; auto.
      destruct (String.eqb_spec k k0) as [->|_].
      - exfalso. apply Hk. left; reflexivity.
      - apply IHK. intros Hin. apply Hk. right; exact Hin. }
    rewrite E. lia.
  - destruct (String.eqb_spec k k0) as [->|_]; [contradiction|].
    now rewrite IH.
Qed.

Lemma list_sum_map_plus {A} (f g : A -> nat) (K : list A) :
  list_sum (map (fun k => f k + g k)%nat K)
  = (list_sum (map f K) + list_sum (map g K))%nat.
Proof. induction K as [|k K IH]; simpl; [reflexivity|]. rewrite IH. lia. Qed.

Lemma group_counts_add_up K ks :
  NoDup K ->
  forall vs,
    List.length ks = List.length vs ->
    Forall (fun key => exists k, key = Some k /\ In k K) ks ->
    list_sum (map (fun k => count (group_values k ks vs)) K) = count vs.
Proof.
  intros HK. induction ks as [|key ks IH]; intros [|v vs] Hlen Hkeys;
    simpl in Hlen; try discriminate.
  - clear HK Hkeys. induction K as [|k K IHK]; [reflexivity|]. exact IHK.
  - inversion Hkeys as [|? ? (k0 & -> & Hk0) Hks]; subst.
    rewrite map_ext with
      (g := fun k => ((if String.eqb k k0
                       then (if Frame.isSome v then 1 else 0) else 0)
                      + count (group_values k ks vs))%nat).
    + rewrite list_sum_map_plus, count_indicator, IH, count_cons by auto.
      reflexivity.
    + intros k. simpl. destruct (String.eqb k k0); [apply count_cons | reflexivity].
Qed.


End SummaryFacts.



Module PerformerFacts.
Import Analysis GroupFacts StatsFacts.
Local Open Scope Q_scope.

Lemma argmax_None s : argmax s = None <-> s = [].
Proof.
  split; [|intros ->; reflexivity].
  destruct s as [|[k v] s]; auto. simpl.
  destruct (argmax s) as [[k' v']|]; [destruct (Qle_bool v' v)|]; discriminate.
Qed.

Lemma argmin_None s : argmin s = None <-> s = [].
Proof.
  split; [|intros ->; reflexivity].
  destruct s as [|[k v] s]; auto. simpl.
  destruct (argmin s) as [[k' v']|]; [destruct (Qle_bool v v')|]; discriminate.
Qed.

(** The entry [argmax] returns is an entry of the Series, and no value is
    above its value. *)
Lemma argmax_spec s :
  forall k v, argmax s = Some (k, v) ->
              In (k, v) s /\ Forall (fun e => snd e <= v) s.
Proof.
  induction s as [|[k0 v0] s IH]; intros k v; simpl; [discriminate|].
  destruct (argmax s) as [[k' v']|] eqn:E.
  - destruct (IH k' v' eq_refl) as [Hin Hall].
    destruct (Qle_bool v' v0) eqn:Hc; intros [= <- <-].
    + apply Qle_bool_iff in Hc. split; [left; reflexivity|].
      constructor; [apply Qle_refl|].
      eapply Forall_impl; [|exact Hall]. intros e He.
      now apply Qle_trans with v'.
    + apply Qle_bool_false in Hc. split; [right; exact Hin|].
      constructor; assumption.
  - apply argmax_None in E. subst s. intros [= <- <-].
    split; [left; reflexivity|]. constructor; [apply Qle_refl | constructor].
Qed.

Lemma argmin_spec s :
  forall k v, argmin s = Some (k, v) ->
              In (k, v) s /\ Forall (fun e => v <= snd e) s.
Proof.
  induction s as [|[k0 v0] s IH]; intros k v; simpl; [discriminate|].
  destruct (argmin s) as [[k' v']|] eqn:E.
  - destruct (IH k' v' eq_refl) as [Hin Hall].
    destruct (Qle_bool v0 v') eqn:Hc; intros [= <- <-].
    + apply Qle_bool_iff in Hc. split; [left; reflexivity|].
      constructor; [apply Qle_refl|].
      eapply Forall_impl; [|exact Hall]. intros e He.
      now apply Qle_trans with v'.
    + apply Qle_bool_false in Hc. split; [right; exact Hin|].
      constructor; assumption.
  - apply argmin_None in E. subst s. intros [= <- <-].
    split; [left; reflexivity|]. constructor; [apply Qle_refl | constructor].
Qed.

Lemma smax_argmax s : smax s = option_map snd (argmax s).
Proof.
  induction s as [|[k v] s IH]; simpl; auto.
  rewrite IH. destruct (argmax s) as [[k' v']|]; simpl; auto.
  destruct (Qle_bool v' v); reflexivity.
Qed.

Lemma smin_argmin s : smin s = option_map snd (argmin s).
Proof.
  induction s as [|[k v] s IH]; simpl; auto.
  rewrite IH. destruct (argmin s) as [[k' v']|]; simpl; auto.
  destruct (Qle_bool v v'); reflexivity.
Qed.

(** In a Series sorted largest first, the first entry is the one
    [idxmax] finds. *)
Lemma argmax_descending e s :
  descending (map snd (e :: s)) -> argmax (e :: s) = Some e.
Proof.
  destruct e as [k v]. simpl. intros [Hall _].
  destruct (argmax s) as [[k' v']|] eqn:E; auto.
  apply argmax_spec in E. destruct E as [Hin _].
  rewrite Forall_map, Forall_forall in Hall. specialize (Hall _ Hin).
  simpl in Hall. apply Qle_bool_iff in Hall. now rewrite Hall.
Qed.

Lemma groupby_sum_In fl k t ks vs :
  In (k, t) (groupby_sum fl ks vs) ->
  In (Some k) ks /\ t = total fl (group_values k ks vs).
Proof.
  unfold groupby_sum. intros H. apply in_map_iff in H.
  destruct H as (k' & [= <- <-] & Hk). split; auto.
  now apply group_keys_In.
Qed.

Lemma groupby_sum_nil fl ks vs :
  groupby_sum fl ks vs = [] <-> Forall (fun key => key = None) ks.
Proof.
  unfold groupby_sum, group_keys. rewrite <- SettledFacts.dropna_nil. split.
  - intros H. apply map_eq_nil in H.
    destruct (Stats.dropna ks) as [|k l] eqn:E; auto.
    assert (Hin : In k (Mode.sort_unique (k :: l)))
      by (apply ModeFacts.sort_unique_In; left; reflexivity).
    rewrite H in Hin. destruct Hin.
  - intros ->. reflexivity.
Qed.

End PerformerFacts.

(** X19. Top and lowest performer.  On the totals by salesperson as the
    run's arithmetic sums them, sorted largest first in whatever order the
    sort leaves equal totals:
    [idxmax] raises exactly when no row has a salesperson; otherwise the top
    performer is the first entry of the sorted Series, both performers are
    salespersons of the table, the values printed with them are their own
    totals, and every salesperson's total lies between the two. *)
Theorem performers_spec fl ks vs s :
  Analysis.sorted_descending snd (Analysis.groupby_sum fl ks vs) s ->
  (Forall (fun key => key = None) ks -> Analysis.performers s = None) /\
  (~ Forall (fun key => key = None) ks ->
   exists top low tv lv,
     Analysis.performers s = Some ((top, Some tv), (low, Some lv)) /\
     hd_error s = Some (top, tv) /\
     In (Some top) ks /\ In (Some low) ks /\
     tv = Analysis.total fl (Analysis.group_values top ks vs) /\
     lv = Analysis.total fl (Analysis.group_values low ks vs) /\
     forall k, In (Some k) ks ->
       (lv <= Analysis.total fl (Analysis.group_values k ks vs) /\
        Analysis.total fl (Analysis.group_values k ks vs) <= tv)%Q).
Proof.
  intros [Hperm Hdesc]. split.
  - intros Hnone. apply (proj2 (PerformerFacts.groupby_sum_nil fl ks vs)) in Hnone.
    rewrite Hnone in Hperm. apply Permutation_nil in Hperm. now subst s.
  - intros Hsome.
    destruct s as [|[top tv] s'] eqn:Es.
    { exfalso. apply Hsome, (proj1 (PerformerFacts.groupby_sum_nil fl ks vs)).
      apply Permutation_sym in Hperm. now apply Permutation_nil in Hperm. }
    rewrite <- Es in *.
    assert (Hmax : Analysis.argmax s = Some (top, tv))
      by (rewrite Es; apply PerformerFacts.argmax_descending;
          rewrite <- Es; exact Hdesc).
    destruct (Analysis.argmin s) as [[low lv]|] eqn:Hmin.
    2:{ apply PerformerFacts.argmin_None in Hmin. congruence. }
    destruct (PerformerFacts.argmax_spec _ _ _ Hmax) as [Htop Hle].
    destruct (PerformerFacts.argmin_spec _ _ _ Hmin) as [Hlow Hge].
    apply Permutation_sym in Hperm.
    pose proof (Permutation_in _ Hperm Htop) as Htop0.
    pose proof (Permutation_in _ Hperm Hlow) as Hlow0.
    apply PerformerFacts.groupby_sum_In in Htop0, Hlow0.
    destruct Htop0 as [Htk Htv], Hlow0 as [Hlk Hlv].
    exists top, low, tv, lv.
    split.
    { unfold Analysis.performers, Analysis.idxmax, Analysis.idxmin.
      rewrite PerformerFacts.smax_argmax, PerformerFacts.smin_argmin.
      rewrite Hmax, Hmin. reflexivity. }
    split; [rewrite Es; reflexivity|].
    repeat (split; [assumption|]).
    intros k Hk.
    assert (Hin : In (k, Analysis.total fl (Analysis.group_values k ks vs)) s).
    { apply Permutation_sym in Hperm. apply (Permutation_in _ Hperm).
      unfold Analysis.groupby_sum.
      apply in_map with (f := fun k => (k, Analysis.total fl
                                             (Analysis.group_values k ks vs))).
      now apply GroupFacts.group_keys_In. }
    rewrite Forall_forall in Hle, Hge.
    split; [apply (Hge _ Hin) | apply (Hle _ Hin)].
Qed.

Lemma performers_spec_witness :
  let ks := [Some "Bob"; Some "Ann"; Some "Bob"; Some "Cid"] in
  let vs := [Examples.num 5; Examples.num 7; Examples.num 9; Examples.num 7] in
  let s := [("Bob", Analysis.total exact (Analysis.group_values "Bob" ks vs));
            ("Cid", Analysis.total exact (Analysis.group_values "Cid" ks vs));
            ("Ann", Analysis.total exact (Analysis.group_values "Ann" ks vs))] in
  Analysis.sorted_descending snd (Analysis.groupby_sum exact ks vs) s /\
  exists top low tv lv,
    Analysis.performers s = Some ((top, Some tv), (low, Some lv)) /\
    hd_error s = Some (top, tv).
Proof.
  intros ks vs s.
  assert (Hs : Analysis.sorted_descending snd (Analysis.groupby_sum exact ks vs) s).
  { split.
    - vm_compute. exact (Permutation_cons_append [_; _] _).
    - simpl. repeat split; repeat constructor; vm_compute; discriminate. }
  split; [exact Hs|].
  destruct (performers_spec exact ks vs s Hs) as [_ H].
  destruct H as (top & low & tv & lv & Hp & Hh & _).
  - intros Hnone. inversion Hnone as [|? ? E _]. discriminate E.
  - exists top, low, tv, lv. split; assumption.
Defined.

Module ReindexFacts.
Import Analysis GroupFacts.

Lemma entry_table (f : string -> Q) (k : string) (K : list string) :
  (In k K -> entry k (map (fun k' => (k', f k')) K) = Some (f k)) /\
  (~ In k K -> entry k (map (fun k' => (k', f k')) K) = None).
Proof.
  induction K as [|k' K [IH1 IH2]]; simpl; [tauto|].
  destruct (String.eqb_spec k k') as [->|Hne]; split; auto.
  - intros H. exfalso. apply H. left; reflexivity.
  - intros [->|H]; [congruence | auto].
Qed.

Lemma entry_groupby_sum fl k ks vs :
  (In (Some k) ks ->
   entry k (groupby_sum fl ks vs) = Some (total fl (group_values k ks vs))) /\
  (~ In (Some k) ks -> entry k (groupby_sum fl ks vs) = None).
Proof.
  unfold groupby_sum.
  destruct (entry_table (fun k => total fl (group_values k ks vs)) k
              (group_keys ks)) as [H1 H2].
  split; intros H.
  - apply H1. now apply group_keys_In.
  - apply H2. intros Hin. apply H. now apply group_keys_In.
Qed.

Lemma In_dec_key (k : string) (ks : list (option string)) :
  In (Some k) ks \/ ~ In (Some k) ks.
Proof.
  induction ks as [|[k'|] ks [IH|IH]]; simpl; try tauto.
  - destruct (String.eqb_spec k' k) as [->|Hne]; [tauto|].
    right. intros [[= E]|H]; auto.
  - right. intros [E|H]; [discriminate | auto].
Qed.

Lemma NoDup_priority_order : NoDup priority_order.
Proof.
  unfold priority_order.
  repeat constructor; simpl; intros H;
    repeat (destruct H as [H|H]; [discriminate H|]); exact H.
Qed.

Lemma priority_keys_order k : In k priority_keys -> In k priority_order.
Proof.
  unfold priority_keys, priority_order. simpl. intuition.
Qed.

End ReindexFacts.

(** X20. Section 7.4, the totals by priority put in the order of the
    chart: the re-indexed Series has exactly the four labels Critical, High,
    Medium, Low in that order, whatever the table holds; a label that some
    row has carries the total of its rows, and a label that no row has
    carries NaN (not 0). *)
Theorem priority_totals_entries fl ps vs :
  map fst (Analysis.totals_by_priority fl ps vs) = Analysis.priority_order /\
  forall p x,
    In (p, x) (Analysis.totals_by_priority fl ps vs) ->
    (In (Some p) ps /\
     x = Some (Analysis.total fl (Analysis.group_values p ps vs))) \/
    (~ In (Some p) ps /\ x = None).
Proof.
  split.
  - unfold Analysis.totals_by_priority, Analysis.reindex.
    rewrite map_map. simpl. reflexivity.
  - intros p x H. unfold Analysis.totals_by_priority, Analysis.reindex in H.
    apply in_map_iff in H. destruct H as (k & [= <- <-] & _).
    destruct (ReindexFacts.entry_groupby_sum fl k ps vs) as [H1 H2].
    destruct (ReindexFacts.In_dec_key k ps) as [H|H]; [left | right]; auto.
Qed.

Section CleanedAggregates.
Import Frame Spec SelectFacts FrameFacts ColumnFacts LengthFacts AlignFacts.
Import SettledFacts.

Variable fl : Arith.
Variable parse_str : list (option string) -> string -> option Z.
Variable parse_num : Q -> option Z.

Local Abbreviation clean := (Script.clean fl parse_str parse_num).

Lemma keyed_values_Some key df ks vs :
  Analysis.keyed_values key df = Some (ks, vs) ->
  lookup key df = Some (Object ks) /\
  lookup total_sales_value df = Some (Numeric vs).
Proof.
  unfold Analysis.keyed_values.
  destruct (lookup key df) as [[?|?|?]|]; try discriminate.
  destruct (lookup total_sales_value df) as [[?|?|?]|]; try discriminate.
  intros [= <- <-]. auto.
Qed.

Lemma nrows_lookup n l s df :
  aligned_n n df -> lookup l df = Some s -> nrows df = n.
Proof.
  intros Ha Hl. destruct df as [|[l0 s0] df]; [discriminate|].
  inversion Ha; subst. reflexivity.
Qed.

Lemma count_full vs :
  Forall (fun v => isSome v = true) vs -> Analysis.count vs = List.length vs.
Proof.
  unfold Analysis.count.
  induction 1 as [|[v|] vs Hv _ IH]; simpl; auto; discriminate.
Qed.

(** X22. The groups of the cleaned table.  Grouped by salesperson, the deal
    counts of [sales_summary] add up to the number of rows; the cleaned
    table has a priority column of strings, and the rows of the four
    priorities Critical, High, Medium, Low add up to the number of rows as
    well.  So every row of the cleaned table is counted in exactly one group
    of each grouping, and the re-indexing by priority leaves no row out. *)
Theorem cleaned_aggregates_account_for_every_row raw c ks vs :
  aligned raw ->
  clean raw = Ok c ->
  Analysis.keyed_values sales_person c = Some (ks, vs) ->
  list_sum (map (fun r => Analysis.deal_count (snd r))
              (Analysis.groupby_agg fl ks vs)) = nrows c /\
  exists ps,
    Analysis.keyed_values priority c = Some (ps, vs) /\
    list_sum (map (fun p => Analysis.count (Analysis.group_values p ps vs))
                Analysis.priority_order) = nrows c.
Proof.
  intros Hal Hc Hkv. apply keyed_values_Some in Hkv. destruct Hkv as [Hk Hv].
  apply aligned_aligned_n in Hal.
  destruct (aligned_n_clean _ _ _ _ _ _ Hal Hc) as (n & _ & Hn).
  pose proof (aligned_n_lookup _ _ _ _ Hn Hk) as Lk.
  pose proof (aligned_n_lookup _ _ _ _ Hn Hv) as Lv.
  simpl in Lk, Lv.
  assert (Hlen : List.length ks = List.length vs) by congruence.
  assert (Hks : Forall (fun key => isSome key = true) ks).
  { pose proof (clean_settled fl parse_str parse_num _ _ Hc) as Hs.
    rewrite Forall_forall in Hs.
    specialize (Hs _ (lookup_In _ _ _ Hk)). exact Hs. }
  assert (Hvs : Forall (fun v => isSome v = true) vs).
  { destruct (clean_required_no_missing fl parse_str parse_num _ _ Hc)
      as [_ (s & Hs & Hm)].
    rewrite Hv in Hs. injection Hs as <-.
    unfold no_missing in Hm. simpl in Hm. now rewrite Forall_map in Hm. }
  assert (Hrows : Analysis.count vs = nrows c)
    by (rewrite (count_full _ Hvs), (nrows_lookup _ _ _ _ Hn Hk); exact Lv).
  split.
  - unfold Analysis.groupby_agg. rewrite map_map. simpl.
    rewrite SummaryFacts.group_counts_add_up; auto.
    + apply GroupFacts.group_keys_NoDup.
    + now apply SummaryFacts.keys_present.
  - destruct (clean_priority_pair fl parse_str parse_num _ _ Hc)
      as (ps & Hp & Hkeys & _).
    exists ps. split.
    + unfold Analysis.keyed_values. now rewrite Hp, Hv.
    + rewrite SummaryFacts.group_counts_add_up; auto.
      * apply ReindexFacts.NoDup_priority_order.
      * pose proof (aligned_n_lookup _ _ _ _ Hn Hp) as Lp. simpl in Lp.
        congruence.
      * eapply Forall_impl; [|exact Hkeys].
        intros x (v & -> & Hin). exists v. split; [reflexivity|].
        now apply ReindexFacts.priority_keys_order.
Qed.

End CleanedAggregates.

Lemma cleaned_aggregates_account_for_every_row_witness :
  exists c ks vs ps,
    Frame.aligned Examples.picky /\
    Examples.clean Examples.picky = Ok c /\
    Analysis.keyed_values sales_person c = Some (ks, vs) /\
    Frame.nrows c = 2%nat /\
    list_sum (map (fun r => Analysis.deal_count (snd r))
                (Analysis.groupby_agg exact ks vs)) = Frame.nrows c /\
    Analysis.keyed_values priority c = Some (ps, vs) /\
    list_sum (map (fun p => Analysis.count (Analysis.group_values p ps vs))
                Analysis.priority_order) = Frame.nrows c.
Proof.
  assert (Ha : Frame.aligned Examples.picky) by (repeat constructor).
  destruct (Examples.clean Examples.picky) as [c|] eqn:Hc;
    [|vm_compute in Hc; discriminate].
  destruct (Analysis.keyed_values sales_person c) as [[ks vs]|] eqn:Hk;
    [|vm_compute in Hc; injection Hc as <-; discriminate Hk].
  assert (Hn : Frame.nrows c = 2%nat)
    by (vm_compute in Hc; injection Hc as <-; reflexivity).
  destruct (cleaned_aggregates_account_for_every_row exact
              IsoDate.parse_str IsoDate.parse_num _ _ _ _ Ha Hc Hk)
    as (Hcount & ps & Hp & Hsum).
  exists c, ks, vs, ps. repeat split; assumption.
Defined.

(* ===================================================================== *)
(** * When the cleaning gets through *)

Section CleanSucceeds.
Import Frame Spec SelectFacts FrameFacts ColumnFacts SettledFacts.

Variable fl : Arith.
Variable parse_str : list (option string) -> string -> option Z.
Variable parse_num : Q -> option Z.

Local Abbreviation to_datetime := (Script.to_datetime parse_str parse_num).
Local Abbreviation convert_date := (Script.convert_date parse_str parse_num).
Local Abbreviation clean := (Script.clean fl parse_str parse_num).

















End CleanSucceeds.


(** * The required columns *)

Section RequiredColumns.
Import Frame Spec SelectFacts FrameFacts ColumnFacts LengthFacts AlignFacts.

Lemma lookup_rename_other l df :
  l <> value_ -> l <> total_sales_value ->
  lookup l (map (fun c => (if String.eqb (fst c) value_ then total_sales_value
                           else fst c, snd c)) df)
  = lookup l df.
Proof.
  intros Hv Ht. induction df as [|[k s] df IH]; [reflexivity|].
  cbn -[String.eqb total_sales_value value_].
  destruct (String.eqb_spec k value_) as [->|Hk].
  - destruct (String.eqb_spec l total_sales_value); [contradiction|].
    destruct (String.eqb_spec l value_); [contradiction | exact IH].
  - destruct (String.eqb l k); auto.
Qed.

Lemma lookup_rename_value df :
  ~ In total_sales_value (columns df) ->
  lookup total_sales_value
    (map (fun c => (if String.eqb (fst c) value_ then total_sales_value
                    else fst c, snd c)) df)
  = lookup value_ df.
Proof.
  induction df as [|[k s] df IH]; [reflexivity|]. intros H.
  cbn -[String.eqb total_sales_value value_] in *.
  destruct (String.eqb_spec k value_) as [->|Hk].
  - rewrite !String.eqb_refl. reflexivity.
  - destruct (String.eqb_spec total_sales_value k) as [<-|_]; [tauto|].
    destruct (String.eqb_spec value_ k) as [<-|_]; [contradiction|].
    apply IH. tauto.
Qed.

(** X24. Line 68 changes labels only: the columns keep their order and
    their contents, no column is called [value_] afterwards, a column with
    another label is found as before, and when the table had no
    [total_sales_value] yet, that label now finds what [value_] held
    (nothing, if there was no [value_] either). *)
Theorem rename_value_spec df :
  map snd (rename_value df) = map snd df /\
  ~ In value_ (columns (rename_value df)) /\
  (forall l, l <> value_ -> l <> total_sales_value ->
             lookup l (rename_value df) = lookup l df) /\
  (~ In total_sales_value (columns df) ->
   lookup total_sales_value (rename_value df) = lookup value_ df).
Proof.
  split; [|split; [apply rename_value_no_value|split]].
  - unfold rename_value. destruct (existsb _ _); auto.
    rewrite map_map. reflexivity.
  - intros l Hv Ht. unfold rename_value.
    destruct (existsb _ _); auto using lookup_rename_other.
  - intros H. unfold rename_value.
    destruct (existsb (String.eqb value_) (columns df)) eqn:E.
    + now apply lookup_rename_value.
    + assert (Hn : ~ In value_ (columns df)).
      { intros Hin. apply (proj2 (existsb_eqb_In _ _)) in Hin. congruence. }
      apply lookup_None in H, Hn. congruence.
Qed.

Lemma mask_and_counts (a b : list bool) :
  List.length a = List.length b ->
  let kept := count_true (map (fun p => andb (fst p) (snd p)) (combine a b)) in
  (kept + List.length (filter negb a) <= List.length a)%nat /\
  (kept + List.length (filter negb b) <= List.length a)%nat /\
  (List.length a
   <= kept + List.length (filter negb a) + List.length (filter negb b))%nat.
Proof.
  unfold count_true. revert b.
  induction a as [|x a IH]; intros [|y b] Hlen; simpl in Hlen;
    try discriminate; simpl; [lia|].
  injection Hlen as Hlen. specialize (IH b Hlen).
  destruct x, y; simpl; lia.
Qed.

(** X25. The rows that line 69 drops, against the missing values that
    section 3 counts per column: in a frame whose columns have the same
    length, the number of rows dropped is at least the number of missing
    salespersons and at least the number of missing sales values, and at
    most the two together. *)
Theorem dropna_required_drops df df1 sp tsv :
  aligned df ->
  lookup sales_person df = Some sp ->
  lookup total_sales_value df = Some tsv ->
  dropna_required df = Ok df1 ->
  (nrows df1 + count_missing sp <= nrows df)%nat /\
  (nrows df1 + count_missing tsv <= nrows df)%nat /\
  (nrows df <= nrows df1 + count_missing sp + count_missing tsv)%nat.
Proof.
  intros Hal Hsp Htsv H. apply aligned_aligned_n in Hal.
  pose proof (aligned_n_lookup _ _ _ _ Hal Hsp) as Lsp.
  pose proof (aligned_n_lookup _ _ _ _ Hal Htsv) as Ltsv.
  apply dropna_required_Ok in H. destruct H as (sp' & tsv' & Hsp' & Htsv' & ->).
  rewrite Hsp in Hsp'. rewrite Htsv in Htsv'.
  injection Hsp' as <-. injection Htsv' as <-.
  assert (La : List.length (notna sp) = nrows df)
    by (rewrite <- Lsp; destruct sp; simpl; apply length_map).
  assert (Lb : List.length (notna tsv) = nrows df)
    by (rewrite <- Ltsv; destruct tsv; simpl; apply length_map).
  set (m := map (fun b => andb (fst b) (snd b))
              (combine (notna sp) (notna tsv))).
  assert (Lm : List.length m = nrows df).
  { unfold m. rewrite length_map, length_combine. lia. }
  pose proof (aligned_n_loc _ m _ Hal Lm) as Hloc.
  assert (Hl : lookup sales_person (loc m df) = Some (take m sp))
    by now rewrite lookup_loc, Hsp.
  rewrite (nrows_lookup _ _ _ _ Hloc Hl).
  destruct (mask_and_counts (notna sp) (notna tsv)) as (H1 & H2 & H3);
    [congruence|].
  fold m in H1, H2, H3. unfold count_missing. rewrite La in *. auto.
Qed.

End RequiredColumns.

Lemma rename_value_spec_witness :
  Frame.lookup total_sales_value
    (rename_value (normalize_columns Examples.regional))
  = Some (Numeric [Examples.num 100; Examples.num 110; Examples.num 120]).
Proof.
  destruct (rename_value_spec (normalize_columns Examples.regional))
    as (_ & _ & _ & H).
  rewrite H.
  - reflexivity.
  - vm_compute. intros H'. repeat (destruct H' as [H'|H']; [discriminate H'|]).
    exact H'.
Defined.

Lemma dropna_required_drops_witness :
  exists df1,
    dropna_required (rename_value (normalize_columns Examples.regional))
    = Ok df1 /\
    (Frame.nrows df1 + 1 <= 3)%nat /\
    (3 <= Frame.nrows df1 + 1 + 0)%nat.
Proof.
  destruct (dropna_required (rename_value (normalize_columns Examples.regional)))
    as [df1|] eqn:H; [|vm_compute in H; discriminate].
  exists df1. split; [reflexivity|].
  destruct (dropna_required_drops
              (rename_value (normalize_columns Examples.regional)) df1
              (Object [None; Some "Ann"; Some "Bob"])
              (Numeric [Examples.num 100; Examples.num 110; Examples.num 120]))
    as (H1 & _ & H3); auto.
  repeat constructor.
Defined.
